(** * Sandbox profile collections of a kernelcache: a model of
      [pkg/kernelcache/sandbox.go]

    The development follows the Go file top-down: machine integers and the
    [bytes.Reader] the parser drives, [encoding/binary] reads, the opcode-name
    extractor [GetSandboxOpts], the ARM64 locator [getSandboxData] and the
    collection parser [ParseSandboxCollection].  Go values are modelled as the
    code has them: fixed-width unsigned integers are [Z] with the wrap-around
    written out, byte slices are [list byte], Go maps are [gmap], and a call
    that can return an error or panic returns a [result]. *)

From Stdlib Require Import ZArith Lia Strings.Byte.
From stdpp Require Import base option list gmap strings.

Local Open Scope Z_scope.

(** ** Fixed-width unsigned integers *)

Module U.
Definition wrap (w : Z) (x : Z) : Z := x mod 2 ^ w.
Definition u8 := wrap 8.
Definition u16 := wrap 16.
Definition u32 := wrap 32.
Definition u64 := wrap 64.

(** Go's [x << s] on a [uint64]: a count of 64 or more gives zero. *)
Definition shl64 (x s : Z) : Z := u64 (Z.shiftl x s).
End U.

(** ** Results of Go calls *)

(** The errors the file can observe.  [io.ReadFull] distinguishes an empty
    read ([io.EOF]) from a partial one ([io.ErrUnexpectedEOF]); [Errorf]
    is [fmt.Errorf] with the message prefix used at the call site;
    [ServiceError] is an error returned by one of the Mach-O services. *)
Inductive error : Type :=
  | EOF
  | ErrUnexpectedEOF
  | Errorf (site : string) (cause : error)
  | ServiceError (service : string).

(** A call returns a value, returns an error, or panics (index out of range,
    nil dereference). *)
Inductive result (A : Type) : Type :=
  | Ok (a : A)
  | Err (e : error)
  | Panic.
Arguments Ok {A} a.
Arguments Err {A} e.
Arguments Panic {A}.

Global Instance result_bind : MBind result := fun A B k m =>
  match m with
  | Ok a => k a
  | Err e => Err e
  | Panic => Panic
  end.

(** [wrapErr site m] is the Go idiom
    [if err != nil { return nil, fmt.Errorf(site ..., err) }]. *)
Definition wrapErr {A} (site : string) (m : result A) : result A :=
  match m with
  | Err e => Err (Errorf site e)
  | other => other
  end.

(** ** Bytes *)

Definition byteZ (b : byte) : Z := Z.of_N (Byte.to_N b).

Definition zbyte (z : Z) : byte :=
  match Byte.of_N (Z.to_N (z mod 256)) with
  | Some b => b
  | None => x00
  end.

(** Little-endian value of a byte string ([binary.LittleEndian]). *)
Fixpoint le (bs : list byte) : Z :=
  match bs with
  | [] => 0
  | b :: rest => byteZ b + 256 * le rest
  end.

(** Cut a byte string into [n] consecutive chunks of [w] bytes. *)
Fixpoint chunks (w : nat) (n : nat) (bs : list byte) : list (list byte) :=
  match n with
  | O => []
  | S n' => take w bs :: chunks w n' (drop w bs)
  end.

Definition zeros (n : Z) : list byte := replicate (Z.to_nat n) x00.

(** ** [bytes.Reader] *)

Record Reader := mkReader { buf : list byte; pos : Z }.

Definition NewReader (data : list byte) : Reader := mkReader data 0.

Definition Len (r : Reader) : Z := Z.of_nat (length (buf r)).

(** [r.Seek(off, io.SeekStart)]; every offset the parser seeks to is a
    widened [uint32], and the parser ignores the returned values. *)
Definition Seek (r : Reader) (off : Z) : Reader := mkReader (buf r) off.

(** [r.Read(b)] for a freshly made [b] of [n] bytes:
    at or past the end it returns [io.EOF]; otherwise it copies what is
    there, possibly fewer than [n] bytes, and returns no error.  The result is
    the contents of [b] after the call: the copied bytes, followed by the
    zeros [make] put there. *)
Definition Read (r : Reader) (n : Z) : result (list byte * Reader) :=
  if Len r <=? pos r then Err EOF
  else
    let avail := drop (Z.to_nat (pos r)) (buf r) in
    let got := take (Z.to_nat n) avail in
    let k := Z.of_nat (length got) in
    Ok (got ++ zeros (n - k), mkReader (buf r) (pos r + k)).

(** [io.ReadFull(r, b)] with [len(b) = n], as [binary.Read] calls it: nothing
    is read for [n = 0]; a read that ends early is an error. *)
Definition ReadFull (r : Reader) (n : Z) : result (list byte * Reader) :=
  if n <=? 0 then Ok ([], r)
  else if Len r <=? pos r then Err EOF
  else if Len r - pos r <? n then Err ErrUnexpectedEOF
  else Ok (take (Z.to_nat n) (drop (Z.to_nat (pos r)) (buf r)),
           mkReader (buf r) (pos r + n)).

(** [binary.Read(r, binary.LittleEndian, &v)] for one unsigned integer of
    [w] bytes. *)
Definition readUint (w : Z) (r : Reader) : result (Z * Reader) :=
  '(bs, r') ← ReadFull r w; Ok (le bs, r').

(** [binary.Read] into a slice of [n] unsigned integers of [w] bytes. *)
Definition readUints (w : nat) (n : Z) (r : Reader) : result (list Z * Reader) :=
  '(bs, r') ← ReadFull r (Z.of_nat w * n);
  Ok (le <$> chunks w (Z.to_nat n) bs, r').

(** [strings.Trim(s, "\x00")]: every leading and every trailing NUL byte is
    cut; bytes in between are kept as they are. *)
Definition isNUL (b : byte) : bool := Byte.eqb b x00.

Fixpoint TrimLeft (bs : list byte) : list byte :=
  match bs with
  | [] => []
  | b :: rest => if isNUL b then TrimLeft rest else bs
  end.

Definition TrimRight (bs : list byte) : list byte :=
  reverse (TrimLeft (reverse bs)).

Definition Trim (bs : list byte) : list byte := TrimRight (TrimLeft bs).

(** ** The data model of the parser *)

Record SandboxProfileCollection := mkCollection {
  Version : Z;
  OpNodeSize : Z;
  OpCount : Z;
  GlobalVarCount : Z;
  ProfileCount : Z;
  RegexItemCount : Z;
  MsgItemCount : Z
}.

Record SandboxOperation := mkOperation {
  Name : string;
  Index : Z;
  Value : Z
}.

(** A profile name is a Go string made from blob bytes: a byte sequence. *)
Record SandboxProfile := mkProfile {
  ProfileName : list byte;
  ProfileVersion : Z;
  Operations : list SandboxOperation
}.

Record Sandbox := mkSandbox {
  Globals : gmap Z (list byte);
  Regexes : gmap Z (list byte);
  OpNodes : gmap Z Z;
  Profiles : list SandboxProfile
}.

(** ** [ParseSandboxCollection] *)

Module Parse.

(** [binary.Size] of [SandboxProfileCollection]: the sum of its field
    widths, no padding. *)
Definition collectionSize : Z := 2 + 2 + 1 + 1 + 2 + 2 + 2.

Definition decodeCollection (bs : list byte) : SandboxProfileCollection :=
  {| Version := le (take 2 bs);
     OpNodeSize := le (take 2 (drop 2 bs));
     OpCount := le (take 1 (drop 4 bs));
     GlobalVarCount := le (take 1 (drop 5 bs));
     ProfileCount := le (take 2 (drop 6 bs));
     RegexItemCount := le (take 2 (drop 8 bs));
     MsgItemCount := le (take 2 (drop 10 bs)) |}.

Definition readCollection (r : Reader) : result (SandboxProfileCollection * Reader) :=
  '(bs, r') ← ReadFull r collectionSize;
  Ok (decodeCollection bs, r').

(** [uint32(collection.OpCount+uint8(binary.Size(uint16(0)))) * 2]: the sum
    is taken in [uint8], then widened. *)
Definition profileSize (c : SandboxProfileCollection) : Z :=
  U.u32 (U.u32 (U.u8 (OpCount c + U.u8 2)) * 2).

Definition globalVarStart (c : SandboxProfileCollection) : Z :=
  U.u32 (U.u32 (2 * U.u32 (RegexItemCount c)) + 12).

Definition globalVarEnd (c : SandboxProfileCollection) : Z :=
  U.u32 (globalVarStart c + U.u32 (2 * U.u32 (GlobalVarCount c))).

Definition opNodeStartTmp (c : SandboxProfileCollection) : Z :=
  U.u32 (U.u32 (globalVarEnd c + U.u32 (2 * U.u32 (MsgItemCount c)))
         + U.u32 (profileSize c * U.u32 (ProfileCount c))).

(** [opNodeStartDelta := 8 - (opNodeStartTmp & 6)], reset to 0 when
    [(opNodeStartTmp & 6) == 0]. *)
Definition opNodeStartDelta (tmp : Z) : Z :=
  if Z.land tmp 6 =? 0 then 0 else U.u32 (8 - Z.land tmp 6).

Definition opNodeStart (tmp : Z) : Z := U.u32 (opNodeStartDelta tmp + tmp).

Definition baseAddr (c : SandboxProfileCollection) : Z :=
  U.u32 (opNodeStart (opNodeStartTmp c) + U.u32 (U.u32 (OpNodeSize c) * 8)).

(** [baseAddr+8*uint32(off)], the position of a name, global or regex. *)
Definition itemAddr (base off : Z) : Z := U.u32 (base + U.u32 (8 * U.u32 off)).

(** The loop [for i := uint16(0); i < collection.ProfileCount; i++] that
    fills [profileDatas]. *)
Fixpoint readProfileDatas (n : nat) (size : Z) (r : Reader)
    : result (list (list byte) * Reader) :=
  match n with
  | O => Ok ([], r)
  | S n' =>
      '(profile, r1) ← wrapErr "failed to read sandbox profiles" (ReadFull r size);
      '(rest, r2) ← readProfileDatas n' size r1;
      Ok (profile :: rest, r2)
  end.

(** The loop [for i := 0; i < int(collection.OpCount); i++]: [opsList[i]]
    is evaluated first and panics when [i] is out of range. *)
Fixpoint readOperations (opsList : list string) (i n : nat) (pr : Reader)
    : result (list SandboxOperation) :=
  match n with
  | O => Ok []
  | S n' =>
      match opsList !! i with
      | None => Panic
      | Some name =>
          '(idx, pr1) ← wrapErr "failed to read sandbox operation index" (readUint 2 pr);
          rest ← readOperations opsList (S i) n' pr1;
          Ok (mkOperation name idx 0 :: rest)
      end
  end.

(** Seek to an item, read its [uint16] length with [binary.Read], then its
    body with [r.Read].  The three copies of this sequence in the source
    differ in the message [site] only. *)
Definition readItem (site : string) (r : Reader) (addr : Z)
    : result (list byte * Reader) :=
  let r0 := Seek r addr in
  '(length, r1) ← wrapErr site (readUint 2 r0);
  Read r1 length.

(** The body of [for idx, prof := range profileDatas]. *)
Definition parseProfile (c : SandboxProfileCollection) (opsList : list string)
    (r : Reader) (prof : list byte) : result (SandboxProfile * Reader) :=
  let pr := NewReader prof in
  '(nameOffset, pr1) ← wrapErr "failed to read profile name offset" (readUint 2 pr);
  '(version, pr2) ← wrapErr "failed to read profile version" (readUint 2 pr1);
  ops ← readOperations opsList 0 (Z.to_nat (OpCount c)) pr2;
  '(str, r1) ← readItem "failed to read profile name length" r
                 (itemAddr (baseAddr c) nameOffset);
  Ok (mkProfile (Trim str) version ops, r1).

Fixpoint parseProfiles (c : SandboxProfileCollection) (opsList : list string)
    (r : Reader) (profileDatas : list (list byte))
    : result (list SandboxProfile * Reader) :=
  match profileDatas with
  | [] => Ok ([], r)
  | prof :: rest =>
      '(sp, r1) ← parseProfile c opsList r prof;
      '(sps, r2) ← parseProfiles c opsList r1 rest;
      Ok (sp :: sps, r2)
  end.

(** The loop [for _, opoff := range opNodeOffsets]: [opNodes] grows by
    [append], [sb.OpNodes] is assigned at the key [opoff]. *)
Fixpoint readOpNodes (offs : list Z) (r : Reader) (opNodes : list Z)
    (m : gmap Z Z) : result (list Z * gmap Z Z * Reader) :=
  match offs with
  | [] => Ok (opNodes, m, r)
  | opoff :: rest =>
      '(v, r1) ← wrapErr "failed to read sandbox op node offets"
                   (readUint 8 (Seek r opoff));
      readOpNodes rest r1 (opNodes ++ [v]) (<[opoff := v]> m)
  end.

(** [sb.Profiles[i].Operations[j].Value = opNodes[o.Index]]; the index
    expression panics out of range. *)
Definition setValue (opNodes : list Z) (o : SandboxOperation)
    : result SandboxOperation :=
  match opNodes !! Z.to_nat (Index o) with
  | Some v => Ok (mkOperation (Name o) (Index o) v)
  | None => Panic
  end.

Fixpoint forEach {A B} (f : A -> result B) (l : list A) : result (list B) :=
  match l with
  | [] => Ok []
  | x :: rest => y ← f x; ys ← forEach f rest; Ok (y :: ys)
  end.

Definition setValues (opNodes : list Z) (sp : SandboxProfile)
    : result SandboxProfile :=
  ops ← forEach (setValue opNodes) (Operations sp);
  Ok (mkProfile (ProfileName sp) (ProfileVersion sp) ops).

(** [for _, goff := range globalOffsets]. *)
Fixpoint readGlobals (base : Z) (offs : list Z) (r : Reader)
    (m : gmap Z (list byte)) : result (gmap Z (list byte) * Reader) :=
  match offs with
  | [] => Ok (m, r)
  | goff :: rest =>
      '(str, r1) ← readItem "failed to read global variable length" r
                     (itemAddr base goff);
      readGlobals base rest r1 (<[goff := Trim str]> m)
  end.

(** [for idx, roff := range regexOffsets]. *)
Fixpoint readRegexes (base : Z) (offs : list Z) (r : Reader)
    (m : gmap Z (list byte)) : result (gmap Z (list byte) * Reader) :=
  match offs with
  | [] => Ok (m, r)
  | roff :: rest =>
      '(data, r1) ← readItem "failed to read regex table offset" r
                      (itemAddr base roff);
      readRegexes base rest r1 (<[roff := data]> m)
  end.

(** The offset tables and profile records, as read right after the
    header. *)
Record Tables := mkTables {
  regexOffsets : list Z;
  globalOffsets : list Z;
  msgOffsets : list Z;
  profileDatas : list (list byte)
}.

Definition readTables (c : SandboxProfileCollection) (r : Reader)
    : result (Tables * Reader) :=
  '(regex, r1) ← wrapErr "failed to read sandbox profile regex offets"
                   (readUints 2 (RegexItemCount c) r);
  '(globals, r2) ← wrapErr "failed to read sandbox profile global offets"
                     (readUints 2 (GlobalVarCount c) r1);
  '(msgs, r3) ← wrapErr "failed to read sandbox profile message offets"
                  (readUints 2 (MsgItemCount c) r2);
  '(datas, r4) ← readProfileDatas (Z.to_nat (ProfileCount c)) (profileSize c) r3;
  Ok (mkTables regex globals msgs datas, r4).

(** The op-node stage: seek to [opNodeStart], read [opNodeCount] offsets,
    then one [uint64] through each of them.  [opNodes] starts as
    [make([]uint64, opNodeCount)]. *)
Definition opNodeCount (c : SandboxProfileCollection) : Z :=
  U.u32 (baseAddr c - opNodeStart (opNodeStartTmp c)) / 8.

Definition readOpNodeOffsets (c : SandboxProfileCollection) (r : Reader)
    : result (list Z * Reader) :=
  wrapErr "failed to read sandbox op node offets"
    (readUints 2 (opNodeCount c) (Seek r (opNodeStart (opNodeStartTmp c)))).

Definition loadOpNodes (c : SandboxProfileCollection) (r : Reader)
    : result (list Z * gmap Z Z * Reader) :=
  '(opNodeOffsets, r1) ← readOpNodeOffsets c r;
  readOpNodes opNodeOffsets r1 (replicate (Z.to_nat (opNodeCount c)) 0) ∅.

End Parse.

Definition ParseSandboxCollection (data : list byte) (opsList : list string)
    : result Sandbox :=
  let r := NewReader data in
  '(collection, r1) ← wrapErr "failed to read sandbox profile collection structure"
                        (Parse.readCollection r);
  '(t, r2) ← Parse.readTables collection r1;
  '(profiles, r3) ← Parse.parseProfiles collection opsList r2 (Parse.profileDatas t);
  '(opNodes, opNodeMap, r4) ← Parse.loadOpNodes collection r3;
  profiles' ← Parse.forEach (Parse.setValues opNodes) profiles;
  '(globals, r5) ← Parse.readGlobals (Parse.baseAddr collection)
                     (Parse.globalOffsets t) r4 ∅;
  '(regexes, _) ← Parse.readRegexes (Parse.baseAddr collection)
                    (Parse.regexOffsets t) r5 ∅;
  Ok (mkSandbox globals regexes opNodeMap profiles').

(** Concrete blobs, written as byte values. *)
Definition bytes (l : list Z) : list byte := zbyte <$> l.

(** ** Tagged pointers *)

Definition getTag (ptr : Z) : Z := Z.shiftr ptr 48.

Definition unTag (ptr : Z) : Z :=
  Z.lor (Z.land ptr (Z.shiftl 1 48 - 1)) (Z.shiftl 0xffff 48).

(** ** The Mach-O services

    [macho.File] and the helpers of the package that wrap it are used
    through their results only.  A service that returns an error is [None];
    the callers pass the error on unchanged. *)

Record MachoSection := mkSection {
  Data : option (list byte);
  Size : Z
}.

Record MachoFile := mkFile {
  FindSection : string -> string -> option MachoSection;
  GetCString : Z -> option string;
  GetOffset : Z -> option Z;
  ReadAt : Z -> Z -> option (list byte);
  findCStringVMaddr : string -> option Z;
  getKextStartVMAddrs : option (list Z);
  getKextInfos : option (list string)
}.

Definition service {A} (name : string) (o : option A) : result A :=
  match o with
  | Some a => Ok a
  | None => Err (ServiceError name)
  end.

(** ** Instructions, as [disassemble.Decompose] returns them *)

Inductive operation :=
  | ARM64_ADD | ARM64_ADR | ARM64_ADRP | ARM64_LDR | ARM64_MOV | ARM64_MOVK
  | ARM64_OTHER (code : Z).

Inductive encoding :=
  | ENC_BL_ONLY_BRANCH_IMM | ENC_B_ONLY_BRANCH_IMM | ENC_CBZ_64_COMPBRANCH
  | ENC_OTHER (code : Z).

Inductive operandClass := IMM32 | IMM64 | REG | CLASS_OTHER (code : Z).

Inductive shiftType := SHIFT_TYPE_LSL | SHIFT_TYPE_OTHER (code : Z).

Global Instance operation_eq_dec : EqDecision operation.
Proof. solve_decision. Defined.
Global Instance encoding_eq_dec : EqDecision encoding.
Proof. solve_decision. Defined.
Global Instance operandClass_eq_dec : EqDecision operandClass.
Proof. solve_decision. Defined.
Global Instance shiftType_eq_dec : EqDecision shiftType.
Proof. solve_decision. Defined.

Record Operand := mkOperand {
  Class : operandClass;
  Registers : list Z;
  Immediate : Z;
  ShiftType : shiftType;
  ShiftValue : Z
}.

(** [Operands] is a Go slice: [None] is the nil slice, which the locator
    tells apart from an empty one. *)
Record Instruction := mkInstruction {
  Address : Z;
  Operation : operation;
  Encoding : encoding;
  Operands : option (list Operand)
}.

Definition elems {A} (s : option (list A)) : list A := default [] s.

(** Indexing a slice panics out of range. *)
Definition at_ {A} (l : list A) (i : nat) : result A :=
  match l !! i with
  | Some a => Ok a
  | None => Panic
  end.

Definition operand (ins : Instruction) (i : nat) : result Operand :=
  at_ (elems (Operands ins)) i.

Definition register0 (o : Operand) : result Z := at_ (Registers o) 0.

(** [strings.Contains]. *)
Fixpoint Contains (s sub : string) : bool :=
  if String.prefix sub s then true
  else match s with
       | EmptyString => false
       | String _ rest => Contains rest sub
       end.

(** A Go string literal that carries its own double quotes. *)
Definition quoted (s : string) : string :=
  let q := String (Ascii.ascii_of_nat 34) EmptyString in
  (q +:+ s +:+ q)%string.

Definition toInt64 (x : Z) : Z := if x <? 2 ^ 63 then x else x - 2 ^ 64.

Inductive control := Continue | Break.

(** ** [make] of a slice

    [make([]T, n)] for a [uint64] length [n] and elements of [elemSize]
    bytes, on a platform whose [int] has 64 bits: the run time panics
    ([makeslice: len out of range]) when [n] does not fit an [int], when the
    size in bytes overflows, and when it exceeds [maxAlloc], the bound of the
    allocator.  [maxAlloc] depends on the platform and is taken as given; an
    allocation within it is taken to succeed.

    The slices the parser makes hold at most 65535 elements of at most 8
    bytes, far below [maxAlloc] on every platform, and the parser has no such
    step. *)
Definition makeslice (maxAlloc : N) (elemSize n : Z) : result unit :=
  if (2 ^ 63 <=? n) || (2 ^ 64 <=? elemSize * n) || (Z.of_N maxAlloc <? elemSize * n)
  then Panic
  else Ok tt.

Section Package.

(** The package constant [tagPtrMask] is declared in another file of the
    package; the functions below take it as given. *)
Variable tagPtrMask : Z.

(** The bound of the allocator, see [makeslice]. *)
Variable maxAlloc : N.

(** *** [GetSandboxOpts] *)

Record optsState := mkOpts { found : bool; bcOpts : list string }.

(** One iteration of [for _, ptr := range ptrs]. *)
Definition optsBody (m : MachoFile) (st : optsState) (ptr : Z)
    : control * optsState :=
  if ptr =? 0 then (Continue, st)
  else
    match GetCString m (Z.lor ptr tagPtrMask) with
    | None => if found st then (Break, st) else (Continue, st)
    | Some str =>
        let found1 := if String.eqb str "default" then true else found st in
        if found1 then
          let st1 := mkOpts found1 (bcOpts st ++ [str]) in
          if negb (getTag ptr =? 0x17) then (Break, st1) else (Continue, st1)
        else (Continue, mkOpts found1 (bcOpts st))
    end.

Fixpoint optsLoop (m : MachoFile) (st : optsState) (ptrs : list Z) : optsState :=
  match ptrs with
  | [] => st
  | ptr :: rest =>
      match optsBody m st ptr with
      | (Break, st1) => st1
      | (Continue, st1) => optsLoop m st1 rest
      end
  end.

Definition GetSandboxOpts (m : MachoFile) : result (list string) :=
  match FindSection m "__DATA_CONST" "__const" with
  | None => Ok []
  | Some dconst =>
      data ← service "Data" (Data dconst);
      _ ← makeslice maxAlloc 8 (Size dconst / 8);
      '(ptrs, _) ← readUints 8 (Size dconst / 8) (NewReader data);
      Ok (bcOpts (optsLoop m (mkOpts false []) ptrs))
  end.

End Package.

(** ** [getSandboxData] *)

(** The reads [binary.Read(dr, binary.LittleEndian, &instrValue)] of a code
    buffer, in order, up to the [io.EOF] that ends the loop: [Some w] is a
    word read in full; [None] is the read of a last, incomplete word, which
    returns [io.ErrUnexpectedEOF] and leaves [instrValue] as it was. *)
Fixpoint wordReads (fuel : nat) (data : list byte) : list (option Z) :=
  match fuel with
  | O => []
  | S fuel' =>
      match data with
      | [] => []
      | _ =>
          if (length data <? 4)%nat then [None]
          else Some (le (take 4 data)) :: wordReads fuel' (drop 4 data)
      end
  end.

Definition instrReads (data : list byte) : list (option Z) :=
  wordReads (length data) data.

Section Locator.

Variable tagPtrMask : Z.

(** The bound of the allocator, see [makeslice]. *)
Variable maxAlloc : N.

(** [disassemble.Decompose(startAddr, instrValue, &results)]; [None] is a
    decode error. *)
Variable Decompose : Z -> Z -> option Instruction.

(** The order in which [for k, v := range references] visits a map, which
    Go leaves unspecified; the two loops over [references] are numbered 1
    and 2. *)
Variable rangeOrder : nat -> gmap Z Z -> list (Z * Z).

(** The [ADRP] pair: [adrpImm], with the second instruction's immediate
    added when it reads the register [ADRP] wrote. *)
Definition adrpPair (prev ins : Instruction) : result Z :=
  o0 ← operand prev 0;
  adrpRegister ← register0 o0;
  o1 ← operand prev 1;
  let adrpImm := Immediate o1 in
  if decide (Operation ins = ARM64_LDR) then
    i1 ← operand ins 1;
    r ← register0 i1;
    if adrpRegister =? r then Ok (U.u64 (adrpImm + Immediate i1)) else Ok adrpImm
  else if decide (Operation ins = ARM64_ADD) then
    i1 ← operand ins 1;
    r ← register0 i1;
    if adrpRegister =? r then
      i2 ← operand ins 2;
      Ok (U.u64 (adrpImm + Immediate i2))
    else Ok adrpImm
  else Ok adrpImm.

Definition afterADRP (prevInstr : option Instruction) (ins : Instruction) : option Instruction :=
  match prevInstr with
  | Some prev =>
      if decide (Operation prev = ARM64_ADRP) then
        if decide (Operation ins = ARM64_ADD ∨ Operation ins = ARM64_LDR)
        then Some prev else None
      else None
  | None => None
  end.

(** *** First pass: the cross-reference map *)

Record scanState := mkScan {
  instrValue : Z;
  prevInstr : option Instruction;
  startAddr : Z;
  references : gmap Z Z
}.

Definition record (prevI : option Instruction) (ins : Instruction)
    (refs : gmap Z Z) : result (gmap Z Z) :=
  if decide (Encoding ins = ENC_BL_ONLY_BRANCH_IMM
             ∨ Encoding ins = ENC_B_ONLY_BRANCH_IMM) then
    o ← operand ins 0; Ok (<[Address ins := Immediate o]> refs)
  else if decide (Encoding ins = ENC_CBZ_64_COMPBRANCH) then
    o ← operand ins 1; Ok (<[Address ins := Immediate o]> refs)
  else if decide (Operation ins = ARM64_ADR ∨ Operation ins = ARM64_LDR) then
    o ← operand ins 1; Ok (<[Address ins := Immediate o]> refs)
  else
    match afterADRP prevI ins with
    | Some prev =>
        adrpImm ← adrpPair prev ins; Ok (<[Address ins := adrpImm]> refs)
    | None => Ok refs
    end.

(** One iteration of the first [for] loop, for one read of the buffer. *)
Definition scanBody (st : scanState) (rd : option Z) : result scanState :=
  let value := default (instrValue st) rd in
  match Decompose (startAddr st) value with
  | None => Ok (mkScan value (prevInstr st) (startAddr st) (references st))
  | Some instruction =>
      refs ← record (prevInstr st) instruction (references st);
      Ok (mkScan value (Some instruction) (U.u64 (startAddr st + 4)) refs)
  end.

Fixpoint scanLoop (st : scanState) (reads : list (option Z)) : result scanState :=
  match reads with
  | [] => Ok st
  | rd :: rest => st1 ← scanBody st rd; scanLoop st1 rest
  end.

(** *** The two searches of the map *)

(** [for k, v := range references { if v == target { ...; break } }]:
    the first key in visiting order whose value is [target]. *)
Definition rangeFind (loop : nat) (refs : gmap Z Z) (target : Z) : option Z :=
  fst <$> List.find (fun kv => snd kv =? target) (rangeOrder loop refs).

Definition panicXref (refs : gmap Z Z) (panicStrVMAddr : Z) : Z :=
  match rangeFind 1 refs panicStrVMAddr with
  | Some k => U.u64 (k - 4)
  | None => 0
  end.

Definition failXref (refs : gmap Z Z) (panicXrefVMAddr : Z) : Z :=
  default 0 (rangeFind 2 refs panicXrefVMAddr).

(** *** Second pass: address and size in the window before the branch *)

Record findState := mkFind {
  instrValue2 : Z;
  prevInstr2 : option Instruction;
  startAddr2 : Z;
  profileVMAddr : Z;
  profileSize : Z
}.

Definition inWindow (failXrefVMAddr : Z) (ins : Instruction) : bool :=
  (U.u64 (failXrefVMAddr - 0x20) <? Address ins) && (Address ins <? failXrefVMAddr).

(** [for _, operand := range operands]: the last [IMM64] operand wins. *)
Definition movSize (size : Z) (operands : list Operand) : Z :=
  foldl (fun sz o => if decide (Class o = IMM64) then Immediate o else sz)
        size operands.

(** The [MOVK] branch, entered when [prevInstr.Operation == ARM64_MOV]. *)
Definition movkSize (size : Z) (prev ins : Instruction) : result Z :=
  match Operands ins, Operands prev with
  | Some operands, Some prevOperands =>
      p0 ← at_ prevOperands 0;
      movRegister ← register0 p0;
      p1 ← at_ prevOperands 1;
      let movImm := Immediate p1 in
      o0 ← at_ operands 0;
      r ← register0 o0;
      if movRegister =? r then
        o1 ← at_ operands 1;
        if decide (Class o1 = IMM32) then
          if decide (ShiftType o1 = SHIFT_TYPE_LSL) then
            Ok (U.u64 (movImm + U.shl64 (Immediate o1) (ShiftValue o1)))
          else Ok size
        else Ok size
      else Ok size
  | _, _ => Ok size
  end.

(** The body of [if failXrefVMAddr-0x20 < instruction.Address && ...]:
    the new [(profileVMAddr, profileSize)]. *)
Definition windowBody (prevI : option Instruction) (ins : Instruction)
    (addr size : Z) : result (Z * Z) :=
  match afterADRP prevI ins with
  | Some prev => adrpImm ← adrpPair prev ins; Ok (adrpImm, size)
  | None =>
      if decide (Operation ins = ARM64_MOV) then
        Ok (addr, movSize size (elems (Operands ins)))
      else if decide (Operation ins = ARM64_MOVK) then
        match prevI with
        | None => Panic
        | Some prev =>
            if decide (Operation prev = ARM64_MOV) then
              size1 ← movkSize size prev ins; Ok (addr, size1)
            else Ok (addr, size)
        end
      else Ok (addr, size)
  end.

Definition findBody (failXrefVMAddr : Z) (st : findState) (rd : option Z)
    : result findState :=
  let value := default (instrValue2 st) rd in
  match Decompose (startAddr2 st) value with
  | None => Ok (mkFind value (prevInstr2 st) (startAddr2 st)
                       (profileVMAddr st) (profileSize st))
  | Some instruction =>
      '(addr, size) ←
        (if inWindow failXrefVMAddr instruction
         then windowBody (prevInstr2 st) instruction (profileVMAddr st) (profileSize st)
         else Ok (profileVMAddr st, profileSize st));
      Ok (mkFind value (Some instruction) (U.u64 (startAddr2 st + 4)) addr size)
  end.

Fixpoint findLoop (failXrefVMAddr : Z) (st : findState)
    (reads : list (option Z)) : result findState :=
  match reads with
  | [] => Ok st
  | rd :: rest => st1 ← findBody failXrefVMAddr st rd; findLoop failXrefVMAddr st1 rest
  end.

(** *** The sandbox kext *)

(** [for idx, info := range infos] up to the first name that contains
    ["sandbox"]: the kext's start address, end address and file offset, all
    zero when there is no such kext. *)
Fixpoint sandboxKext (m : MachoFile) (startAdders : list Z) (idx : nat)
    (infos : list string) : result (Z * Z * Z) :=
  match infos with
  | [] => Ok (0, 0, 0)
  | info :: rest =>
      if Contains info "sandbox" then
        s ← at_ startAdders idx;
        e ← at_ startAdders (idx + 1);
        let sandboxKextStartVaddr := Z.lor s tagPtrMask in
        let sandboxKextEndVaddr := Z.lor e tagPtrMask in
        off ← service "GetOffset" (GetOffset m sandboxKextStartVaddr);
        Ok (sandboxKextStartVaddr, sandboxKextEndVaddr, off)
      else sandboxKext m startAdders (S idx) rest
  end.

(** [buf := make([]byte, n)] followed by [m.ReadAt(buf, off)]. *)
Definition readBytes (m : MachoFile) (n off : Z) : result (list byte) :=
  _ ← makeslice maxAlloc 1 n;
  service "ReadAt" (ReadAt m n off).

Definition getSandboxData (m : MachoFile) (panic : string) : result (list byte) :=
  panicStrVMAddr ← service "findCStringVMaddr" (findCStringVMaddr m panic);
  _ ← service "GetOffset" (GetOffset m panicStrVMAddr);
  startAdders ← service "getKextStartVMAddrs" (getKextStartVMAddrs m);
  infos ← service "getKextInfos" (getKextInfos m);
  '(sandboxKextStartVaddr, sandboxKextEndVaddr, sandboxKextStartOffset) ←
    sandboxKext m startAdders 0 infos;
  sbInstrData ← readBytes m (U.u64 (sandboxKextEndVaddr - sandboxKextStartVaddr))
                          (toInt64 sandboxKextStartOffset);
  st ← scanLoop (mkScan 0 None sandboxKextStartVaddr ∅) (instrReads sbInstrData);
  let panicXrefVMAddr := panicXref (references st) panicStrVMAddr in
  let failXrefVMAddr := failXref (references st) panicXrefVMAddr in
  fs ← findLoop failXrefVMAddr
         (mkFind (instrValue st) (prevInstr st) sandboxKextStartVaddr 0 0)
         (instrReads sbInstrData);
  profileOffset ← service "GetOffset" (GetOffset m (profileVMAddr fs));
  readBytes m (profileSize fs) (toInt64 profileOffset).

Definition GetSandboxProfiles (m : MachoFile) : result (list byte) :=
  getSandboxData m (quoted "failed to initialize platform sandbox").

Definition GetSandboxCollections (m : MachoFile) : result (list byte) :=
  getSandboxData m (quoted "failed to initialize collection").

End Locator.

(** ** The specification's formulas, for comparison with the code *)

(** The alignment rule as the format description writes it:
    [align(x) = x + (8 - (x & 6))] when [(x & 6) != 0], else [x]. *)
Definition align (x : Z) : Z :=
  if Z.land x 6 =? 0 then x else x + (8 - Z.land x 6).

(** The positional op-node array of the format description: one [uint64]
    per entry of the op-node offset table, in table order, with nothing in
    front. *)
Definition opNodesPositional (data : list byte) : result (list Z) :=
  '(c, r1) ← Parse.readCollection (NewReader data);
  '(offs, r2) ← Parse.readOpNodeOffsets c r1;
  '(nodes, _, _) ← Parse.readOpNodes offs r2 [] ∅;
  Ok nodes.

(** The scan of the opcode array as its description words it, for an array
    [ptrs] and [seen] telling whether ["default"] was met: a zero pointer is
    skipped; a string that cannot be read is ignored before ["default"] and
    ends the scan after it; from ["default"] on every string read is kept,
    and the scan ends behind the first one whose pointer is not tagged
    [0x17]. *)
Fixpoint opcodeScan (tagPtrMask : Z) (m : MachoFile) (seen : bool) (ptrs : list Z)
    : list string :=
  match ptrs with
  | [] => []
  | ptr :: rest =>
      if ptr =? 0 then opcodeScan tagPtrMask m seen rest
      else
        match GetCString m (Z.lor ptr tagPtrMask) with
        | None => if seen then [] else opcodeScan tagPtrMask m seen rest
        | Some str =>
            if seen || String.eqb str "default" then
              str :: (if getTag ptr =? 0x17 then opcodeScan tagPtrMask m true rest
                      else [])
            else opcodeScan tagPtrMask m false rest
        end
  end.

(** The value the hardware leaves in [Rd] after [MOV Rd, #imm] and
    [MOVK Rd, #imm2, LSL #s], as the description of the fusion writes it. *)
Definition movMovk (imm imm2 s : Z) : Z := Z.lor imm (Z.shiftl imm2 s).

(** ** Predicates of the statements *)

Definition noNULAtEnds (s : list byte) : Prop :=
  head s <> Some x00 /\ last s <> Some x00.

Definition allNUL (bs : list byte) : Prop := Forall (fun b => b = x00) bs.

(** [s] is the item stored in [data] at [base + 8 * off] (a [uint16] length,
    then the body as [r.Read] returns it), cut by [strings.Trim]: the body is
    [s] between two runs of NUL bytes, and [s] has no NUL byte at either
    end. *)
Definition trimmedItem (site : string) (data : list byte) (base off : Z)
    (s : list byte) : Prop :=
  exists raw r1 front back,
    Parse.readItem site (NewReader data) (Parse.itemAddr base off) = Ok (raw, r1)
    /\ s = Trim raw
    /\ raw = front ++ s ++ back /\ allNUL front /\ allNUL back
    /\ noNULAtEnds s.

(** [bs] is the item stored in [data] at [base + 8 * off], as read. *)
Definition storedItem (site : string) (data : list byte) (base off : Z)
    (bs : list byte) : Prop :=
  exists r1,
    Parse.readItem site (NewReader data) (Parse.itemAddr base off) = Ok (bs, r1).

(** The profile records of a blob, where the parser reads them: behind the
    header and the three offset tables. *)
Definition recordsOf (data : list byte) : list (list byte) :=
  let c := Parse.decodeCollection (take 12 data) in
  chunks (Z.to_nat (Parse.profileSize c)) (Z.to_nat (ProfileCount c))
    (drop (Z.to_nat (12 + 2 * RegexItemCount c + 2 * GlobalVarCount c
                     + 2 * MsgItemCount c)) data).


(** The state of the opcode scan: nothing is collected before ["default"],
    and what is collected starts with it. *)
Definition optsInv (st : optsState) : Prop :=
  (found st = false /\ bcOpts st = [])
  \/ (found st = true /\ head (bcOpts st) = Some "default"%string).

(** ** Concrete inputs *)

Module Sample.

(** One profile with one operation of index 0 and one op node.  Header at
    0, the profile record at 12, the op-node table at 24 (its only entry
    is the offset 24, through which the value 24 is read), the profile
    name ["A"] at 32. *)
Definition blobOneNode : list byte := bytes
  [1;0; 1;0; 1; 0; 1;0; 0;0; 0;0;
   0;0; 1;0; 0;0;
   0;0;0;0;0;0;
   24;0;0;0;0;0;0;0;
   1;0; 65].

(** A header that declares one regex, the regex offset 1 at byte 12 and
    the bytes [2 0] at byte 16; the regex item (length 1, byte 0xAB) is at
    [baseAddr + 8 = 24]. *)
Definition blobOneRegex : list byte := bytes
  [0;0; 0;0; 0; 0; 0;0; 1;0; 0;0;
   1;0;
   0;0; 2;0; 0;0;0;0;0;0;
   1;0; 171].

(** A header with [OpCount = 254] and one profile, followed by a record of
    [2 * (254 + 2)] bytes. *)
Definition blobOps254 : list byte :=
  bytes [0;0; 0;0; 254; 0; 1;0; 0;0; 0;0] ++ zeros 512.

(** One regex at offset 0 (so at [baseAddr = 16]) whose length field says
    4 while the blob ends after 2 more bytes. *)
Definition blobShortRegex : list byte := bytes
  [0;0; 0;0; 0; 0; 0;0; 1;0; 0;0;
   0;0;
   0;0;
   4;0; 170; 187].

(** One profile without operations whose name bytes are [A NUL B], and one
    global at offset 1 whose bytes are [NUL C]. *)
Definition blobNames : list byte := bytes
  [0;0; 0;0; 0; 1; 1;0; 0;0; 0;0;
   1;0;
   0;0; 0;0;
   0;0;0;0;0;0;
   3;0; 65; 0; 66; 0;0;0;
   2;0; 0; 67].

Definition tagPtrMask : Z := 0xffff000000000000.

(** The allocator bound of a 64-bit platform with 48 address bits. *)
Definition maxAlloc : N := 2 ^ 48.

(** The opcode array
    [&"default", &"file*", &"mach*", 0, &"unrelated"] with the tags
    [0x17, 0x17, 0x10, -, 0x17]; the strings live at [0x...100], [0x...200],
    [0x...300] and [0x...400]. *)
Definition optsPtrs : list Z :=
  [0x0017fffffff00100; 0x0017fffffff00200; 0x0010fffffff00300; 0;
   0x0017fffffff00400].

Definition optsStrings (addr : Z) : option string :=
  if addr =? 0xfffffffffff00100 then Some "default"%string
  else if addr =? 0xfffffffffff00200 then Some "file*"%string
  else if addr =? 0xfffffffffff00300 then Some "mach*"%string
  else if addr =? 0xfffffffffff00400 then Some "unrelated"%string
  else None.

Definition none2 {A B C} (_ : A) (_ : B) : option C := None.

Definition u64le (v : Z) : list byte :=
  (fun i => zbyte (Z.shiftr v (8 * Z.of_nat i))) <$> seq 0 8.

(** The section [__DATA_CONST,__const] that holds [optsPtrs], and one
    pointer, tagged [0x17], at which no string can be read. *)
Definition optsSection : MachoSection :=
  mkSection (Some (mjoin (u64le <$> optsPtrs))) 40.

Definition badPtr : Z := 0x0017fffffff00500.

Definition optsFile : MachoFile :=
  mkFile (fun seg sect => if String.eqb seg "__DATA_CONST" && String.eqb sect "__const"
                          then Some optsSection else None)
    optsStrings (fun _ => None) none2 (fun _ => None) None None.

(** The same array in a file whose only string is ["file*"], and a file
    whose section data cannot be had. *)
Definition noDefaultFile : MachoFile :=
  mkFile (fun seg sect => if String.eqb seg "__DATA_CONST" && String.eqb sect "__const"
                          then Some optsSection else None)
    (fun addr => if addr =? 0xfffffffffff00200 then Some "file*"%string else None)
    (fun _ => None) none2 (fun _ => None) None None.

Definition noDataFile : MachoFile :=
  mkFile (fun seg sect => if String.eqb seg "__DATA_CONST" && String.eqb sect "__const"
                          then Some (mkSection None 16) else None)
    (fun _ => None) (fun _ => None) none2 (fun _ => None) None None.

(** A file whose section has no data and declares [2^64 - 8] bytes. *)
Definition hugeFile : MachoFile :=
  mkFile (fun seg sect => if String.eqb seg "__DATA_CONST" && String.eqb sect "__const"
                          then Some (mkSection (Some []) (2 ^ 64 - 8)) else None)
    (fun _ => None) (fun _ => None) none2 (fun _ => None) None None.

(** A file without a [__DATA_CONST,__const] section. *)
Definition noConstFile : MachoFile :=
  mkFile none2 (fun _ => None) (fun _ => None) none2 (fun _ => None) None None.

(** Operands and instructions for the locator. *)
Definition reg (r : Z) : Operand := mkOperand REG [r] 0 (SHIFT_TYPE_OTHER 0) 0.
Definition imm64 (v : Z) : Operand := mkOperand IMM64 [] v (SHIFT_TYPE_OTHER 0) 0.
Definition imm32lsl (v s : Z) : Operand := mkOperand IMM32 [] v SHIFT_TYPE_LSL s.

Definition MOV (addr rd v : Z) : Instruction :=
  mkInstruction addr ARM64_MOV (ENC_OTHER 1) (Some [reg rd; imm64 v]).
Definition MOVK (addr rd v s : Z) : Instruction :=
  mkInstruction addr ARM64_MOVK (ENC_OTHER 2) (Some [reg rd; imm32lsl v s]).
Definition ADRP (addr rd page : Z) : Instruction :=
  mkInstruction addr ARM64_ADRP (ENC_OTHER 3) (Some [reg rd; imm64 page]).
Definition ADD (addr rd rn v : Z) : Instruction :=
  mkInstruction addr ARM64_ADD (ENC_OTHER 4) (Some [reg rd; reg rn; imm64 v]).
Definition CBZ (addr rt target : Z) : Instruction :=
  mkInstruction addr (ARM64_OTHER 5) ENC_CBZ_64_COMPBRANCH (Some [reg rt; imm64 target]).

Definition LDR (addr rt rn v : Z) : Instruction :=
  mkInstruction addr ARM64_LDR (ENC_OTHER 6)
    (Some [reg rt; mkOperand (CLASS_OTHER 1) [rn] v (SHIFT_TYPE_OTHER 0) 0]).

Definition kextStart : Z := 0xfffffff007004000.
Definition panicStrAddr : Z := 0xfffffff007090020.

(** A disassembler stub for five instruction words:
    [ADRP X0, blob page; ADD X0, X0, #0x10; CBZ X1, kextStart+12;
     ADRP X0, panic page; ADD X0, X0, #0x20]. *)
Definition stubDecompose (addr w : Z) : option Instruction :=
  if w =? 1 then Some (ADRP addr 0 0xfffffff007080000)
  else if w =? 2 then Some (ADD addr 0 0 0x10)
  else if w =? 3 then Some (CBZ addr 1 (kextStart + 12))
  else if w =? 4 then Some (ADRP addr 0 0xfffffff007090000)
  else if w =? 5 then Some (ADD addr 0 0 0x20)
  else None.

(** A disassembler stub for two size pairs:
    [MOV X0, #0x1234; MOVK X0, #0x5, LSL #16] and
    [MOV X0, #0x10000; MOVK X0, #0x1, LSL #16]. *)
Definition sizeDecompose (addr w : Z) : option Instruction :=
  if w =? 1 then Some (MOV addr 0 0x1234)
  else if w =? 2 then Some (MOVK addr 0 0x5 16)
  else if w =? 3 then Some (MOV addr 0 0x10000)
  else if w =? 4 then Some (MOVK addr 0 0x1 16)
  else None.


Definition mapOrder (loop : nat) (refs : gmap Z Z) : list (Z * Z) :=
  map_to_list refs.


(** A kernelcache whose last kext is the sandbox kext, so that the table of
    start addresses has no entry behind it; and one without a sandbox
    kext. *)
Definition lastKextFile : MachoFile :=
  mkFile none2 (fun _ => None) (fun vmaddr => Some (vmaddr - 0xfffffff007000000))
    (fun n off => Some (zeros n)) (fun _ => Some panicStrAddr)
    (Some [0xfffffff007000000; kextStart])
    (Some ["com.apple.kec.corecrypto"; "com.apple.security.sandbox"]%string).

Definition noSandboxFile : MachoFile :=
  mkFile none2 (fun _ => None) (fun vmaddr => Some vmaddr)
    (fun n off => Some (zeros n)) (fun _ => Some panicStrAddr)
    (Some [0xfffffff007000000; kextStart])
    (Some ["com.apple.kec.corecrypto"; "com.apple.iokit.IOSurface"]%string).


End Sample.

(** * Properties *)

(** ** Reasoning about [result] *)

Lemma bind_Ok {A B} (m : result A) (k : A -> result B) (b : B) :
  m ≫= k = Ok b -> exists a, m = Ok a /\ k a = Ok b.
Proof. destruct m as [a| |]; simpl; intros H; try discriminate. eauto. Qed.


Lemma bind_ret {A B} (a : A) (k : A -> result B) : Ok a ≫= k = k a.
Proof. reflexivity. Qed.

Lemma wrapErr_Ok {A} (site : string) (m : result A) (a : A) :
  wrapErr site m = Ok a -> m = Ok a.
Proof. destruct m; simpl; congruence. Qed.

(** Break an equation [... = Ok _] along the binds of its left side. *)
Ltac ok_inv H :=
  repeat match type of H with
         | _ ≫= _ = Ok _ =>
             let a := fresh "a" in
             let Ha := fresh "Ha" in
             apply bind_Ok in H; destruct H as (a & Ha & H);
             lazymatch type of Ha with
             | wrapErr _ _ = Ok _ => apply wrapErr_Ok in Ha
             | _ => idtac
             end
         | (let '(_, _) := ?p in _) = Ok _ => destruct p
         | Ok _ = Ok _ => injection H as H
         end.

(** The same for one bind, naming its result. *)
Tactic Notation "ok_bind" hyp(H) "as" simple_intropattern(p) ident(Ha) :=
  apply bind_Ok in H as (p & Ha & H);
  lazymatch type of Ha with
  | wrapErr _ _ = Ok _ => apply wrapErr_Ok in Ha
  | _ => idtac
  end.

Ltac eval_land :=
  repeat match goal with
         | |- context [Z.land (Zpos ?a) (Zpos ?b)] =>
             let v := eval vm_compute in (Z.land (Zpos a) (Zpos b)) in
             change (Z.land (Zpos a) (Zpos b)) with v
         | |- context [Z.land 0 ?b] => change (Z.land 0 b) with 0
         end.

(** ** The alignment of the op-node table *)

Lemma land6_mod8 (x : Z) : Z.land x 6 = Z.land (x mod 8) 6.
Proof.
  change 6 with (Z.land 7 6) at 1. rewrite Z.land_assoc.
  change 7 with (Z.ones 3). rewrite Z.land_ones by lia. reflexivity.
Qed.

(** [x & 6] is decided by [x mod 8]: bit 0 is ignored. *)
Lemma land6_cases (x : Z) :
  (x mod 8 = 0 \/ x mod 8 = 1) /\ Z.land x 6 = 0
  \/ (x mod 8 = 2 \/ x mod 8 = 3) /\ Z.land x 6 = 2
  \/ (x mod 8 = 4 \/ x mod 8 = 5) /\ Z.land x 6 = 4
  \/ (x mod 8 = 6 \/ x mod 8 = 7) /\ Z.land x 6 = 6.
Proof.
  rewrite land6_mod8.
  pose proof (Z.mod_pos_bound x 8 ltac:(lia)) as Hr.
  assert (x mod 8 = 0 \/ x mod 8 = 1 \/ x mod 8 = 2 \/ x mod 8 = 3 \/ x mod 8 = 4
          \/ x mod 8 = 5 \/ x mod 8 = 6 \/ x mod 8 = 7) as Hc by lia.
  destruct Hc as [H|[H|[H|[H|[H|[H|[H|H]]]]]]]; rewrite H; eval_land; lia.
Qed.

Lemma align_mod8 (x : Z) :
  (align x mod 8 = 0 \/ align x mod 8 = 1) /\ (align x = x <-> Z.land x 6 = 0).
Proof.
  unfold align.
  destruct (land6_cases x) as [[Hm Hl]|[[Hm Hl]|[[Hm Hl]|[Hm Hl]]]]; rewrite Hl;
    cbn [Z.eqb]; (split; [Z.div_mod_to_equations; lia | lia]).
Qed.

(** The delta the parser adds never wraps, and gives the written formula. *)
Lemma opNodeStartDelta_align (x : Z) :
  0 <= Parse.opNodeStartDelta x <= 6 /\ Parse.opNodeStartDelta x + x = align x.
Proof.
  unfold Parse.opNodeStartDelta, align, U.u32, U.wrap.
  destruct (land6_cases x) as [[Hm Hl]|[[Hm Hl]|[[Hm Hl]|[Hm Hl]]]]; rewrite Hl;
    cbn [Z.eqb]; vm_compute (_ mod _); lia.
Qed.

(** An even position is padded to a multiple of 8; the positions the parser
    computes are sums of even terms. *)
Lemma align_even (x : Z) : x mod 2 = 0 -> align x mod 8 = 0.
Proof.
  intros He. unfold align.
  destruct (land6_cases x) as [[Hm Hl]|[[Hm Hl]|[[Hm Hl]|[Hm Hl]]]]; rewrite Hl;
    cbn [Z.eqb]; Z.div_mod_to_equations; lia.
Qed.

(** C2, as the code has it: masking by 6 ignores bit 0, so the aligned
    position is 0 or 1 modulo 8 (not 0 or 2), and it is the position itself
    exactly when [(x & 6) == 0].  The same holds for the [uint32] value
    [opNodeStart] the parser computes, which is [align] reduced to 32 bits. *)
Theorem align_rule (x : Z) :
  (align x mod 8 = 0 \/ align x mod 8 = 1)
  /\ (align x = x <-> Z.land x 6 = 0)
  /\ (0 <= x < 2 ^ 32 ->
      Parse.opNodeStart x = U.u32 (align x)
      /\ (Parse.opNodeStart x mod 8 = 0 \/ Parse.opNodeStart x mod 8 = 1)
      /\ (Parse.opNodeStart x = x <-> Z.land x 6 = 0)).
Proof.
  destruct (align_mod8 x) as [Ha Hb]. split; [exact Ha | split; [exact Hb |]].
  intros Hx. unfold Parse.opNodeStart.
  destruct (opNodeStartDelta_align x) as [Hd He]. rewrite He.
  split; [reflexivity |]. unfold U.u32, U.wrap.
  assert (align x < 2 ^ 32 \/ 2 ^ 32 <= align x < 2 ^ 32 + 6) as [Hlt | Hge] by lia.
  - rewrite (Z.mod_small (align x) (2 ^ 32)) by lia. done.
  - split.
    + Z.div_mod_to_equations; lia.
    + rewrite <- Hb. split; intros; Z.div_mod_to_equations; lia.
Qed.

(** The rule at [0x1A]: the mask gives 2, the delta is 6, the op-node
    table starts at [0x20]. *)
Lemma align_rule_witness :
  0 <= 0x1A < 2 ^ 32
  /\ Parse.opNodeStart 0x1A = 0x20
  /\ (Parse.opNodeStart 0x1A mod 8 = 0 \/ Parse.opNodeStart 0x1A mod 8 = 1).
Proof.
  assert (0 <= 0x1A < 2 ^ 32) as Hx by lia.
  split; [exact Hx |].
  destruct (align_rule 0x1A) as (_ & _ & Hcode).
  destruct (Hcode Hx) as (Heq & Hmod & _).
  split; [rewrite Heq; reflexivity | exact Hmod].
Defined.

(** The claim as written fails at [x = 1]: [1 & 6 = 0], so [align 1 = 1],
    which is neither 0 nor 2 modulo 8. *)
Lemma align_mod8_not_0_2 : ~ (align 1 mod 8 = 0 \/ align 1 mod 8 = 2).
Proof. vm_compute. intros [H | H]; discriminate H. Qed.

(** ** The size of a profile record *)

Lemma profileSize_small (c : SandboxProfileCollection) :
  0 <= OpCount c <= 253 -> Parse.profileSize c = 2 * (OpCount c + 2).
Proof.
  intros H. unfold Parse.profileSize, U.u32, U.u8, U.wrap.
  change (2 mod 2 ^ 8) with 2.
  rewrite (Z.mod_small (OpCount c + 2)) by lia.
  rewrite (Z.mod_small (OpCount c + 2)) by lia.
  rewrite Z.mod_small by lia. lia.
Qed.

Lemma profileSize_wrapped (c : SandboxProfileCollection) :
  254 <= OpCount c <= 255 -> Parse.profileSize c = 2 * (OpCount c + 2) - 512.
Proof.
  intros H. unfold Parse.profileSize, U.u32, U.u8, U.wrap.
  change (2 mod 2 ^ 8) with 2.
  assert (OpCount c = 254 \/ OpCount c = 255) as [-> | ->] by lia; reflexivity.
Qed.

(** C4 at [OpCount = 254]: the sum [OpCount + 2] is taken in [uint8] and
    wraps to 0, so the record size is 0 and not [2 * (254 + 2) = 512]; the
    parser then fails on the empty record, although the blob holds the 512
    bytes. *)
Theorem profileSize_254 :
  let c := Parse.decodeCollection (take 12 Sample.blobOps254) in
  OpCount c = 254
  /\ Parse.profileSize c = 0
  /\ 2 * (OpCount c + 2) = 512
  /\ ParseSandboxCollection Sample.blobOps254 []
     = Err (Errorf "failed to read profile name offset" EOF).
Proof. vm_compute. done. Qed.

(** ** [strings.Trim] *)

Lemma isNUL_true (b : byte) : isNUL b = true <-> b = x00.
Proof. unfold isNUL. split; [apply Byte.byte_dec_bl | apply Byte.byte_dec_lb]. Qed.

(** [TrimLeft] cuts a run of NUL bytes and stops at the first other byte. *)
Lemma TrimLeft_split (l : list byte) :
  exists a, l = a ++ TrimLeft l /\ Forall (fun b => b = x00) a /\ head (TrimLeft l) <> Some x00.
Proof.
  induction l as [|b l IH]; simpl.
  - exists []. split_and!; [done | constructor | done].
  - destruct (isNUL b) eqn:Hb.
    + destruct IH as (a & Heq & Ha & Hh). exists (b :: a). split_and!.
      * simpl. by f_equal.
      * constructor; [by apply isNUL_true | done].
      * done.
    + exists []. split_and!; [done | constructor |].
      simpl. intros [= ->]. discriminate Hb.
Qed.

(** [Trim] cuts NUL bytes at both ends and nothing else. *)
Lemma Trim_split (l : list byte) :
  exists a b, l = a ++ Trim l ++ b
    /\ Forall (fun c => c = x00) a /\ Forall (fun c => c = x00) b
    /\ head (Trim l) <> Some x00 /\ last (Trim l) <> Some x00.
Proof.
  destruct (TrimLeft_split l) as (a & Hl & Ha & Hh).
  destruct (TrimLeft_split (reverse (TrimLeft l))) as (b & Hr & Hb & Hlast).
  exists a, (reverse b). unfold Trim, TrimRight.
  assert (TrimLeft l = reverse (TrimLeft (reverse (TrimLeft l))) ++ reverse b) as Hm.
  { rewrite <- reverse_app, <- Hr, reverse_involutive. done. }
  split_and!.
  - by rewrite <- Hm.
  - done.
  - by apply Forall_reverse.
  - destruct (reverse (TrimLeft (reverse (TrimLeft l)))) as [|c t] eqn:Ht; [done |].
    rewrite Hm in Hh. done.
  - rewrite last_reverse. done.
Qed.

(** ** The reader *)

Lemma ReadFull_Ok r n bs r' :
  ReadFull r n = Ok (bs, r') ->
  buf r' = buf r
  /\ (0 < n -> pos r' = pos r + n /\ pos r + n <= Len r
               /\ bs = take (Z.to_nat n) (drop (Z.to_nat (pos r)) (buf r))).
Proof.
  unfold ReadFull. intros H.
  destruct (n <=? 0) eqn:Hn.
  { injection H as <- <-. split; [done | lia]. }
  destruct (Len r <=? pos r) eqn:Hp; [discriminate |].
  destruct (Len r - pos r <? n) eqn:Hs; [discriminate |].
  injection H as <- <-. simpl. split; [done |]. intros _. split_and!; [done | lia | done].
Qed.

Lemma ReadFull_buf r n bs r' : ReadFull r n = Ok (bs, r') -> buf r' = buf r.
Proof. intros H. by apply ReadFull_Ok in H as [? _]. Qed.

Lemma Read_buf r n bs r' : Read r n = Ok (bs, r') -> buf r' = buf r.
Proof.
  unfold Read. destruct (Len r <=? pos r); [discriminate |].
  intros [= <- <-]. done.
Qed.

Lemma readUint_buf w r v r' : readUint w r = Ok (v, r') -> buf r' = buf r.
Proof. unfold readUint. intros H. ok_inv H. subst. eauto using ReadFull_buf. Qed.

Lemma readUints_buf w n r v r' : readUints w n r = Ok (v, r') -> buf r' = buf r.
Proof. unfold readUints. intros H. ok_inv H. subst. eauto using ReadFull_buf. Qed.

Lemma readItem_buf site r addr bs r' :
  Parse.readItem site r addr = Ok (bs, r') -> buf r' = buf r.
Proof.
  unfold Parse.readItem. intros H. ok_inv H.
  apply Read_buf in H. apply readUint_buf in Ha. simpl in Ha. congruence.
Qed.

(** An item is found by seeking: only the blob matters, not where the
    reader stood. *)
Lemma readItem_seek site r addr :
  Parse.readItem site r addr = Parse.readItem site (NewReader (buf r)) addr.
Proof. reflexivity. Qed.

Lemma readProfileDatas_buf n size r ds r' :
  Parse.readProfileDatas n size r = Ok (ds, r') -> buf r' = buf r.
Proof.
  revert r ds r'. induction n as [|n IH]; simpl; intros r ds r' H.
  - by injection H as <- <-.
  - ok_inv H. subst. apply ReadFull_buf in Ha. apply IH in Ha0. congruence.
Qed.

Lemma readTables_buf c r t r' : Parse.readTables c r = Ok (t, r') -> buf r' = buf r.
Proof.
  unfold Parse.readTables. intros H. ok_inv H. subst.
  apply readUints_buf in Ha, Ha0, Ha1. apply readProfileDatas_buf in Ha2. congruence.
Qed.

Lemma parseProfile_buf c ops r prof sp r' :
  Parse.parseProfile c ops r prof = Ok (sp, r') -> buf r' = buf r.
Proof.
  unfold Parse.parseProfile. intros H. ok_inv H. subst. eauto using readItem_buf.
Qed.

Lemma parseProfiles_buf c ops r ds sps r' :
  Parse.parseProfiles c ops r ds = Ok (sps, r') -> buf r' = buf r.
Proof.
  revert r sps r'. induction ds as [|d ds IH]; simpl; intros r sps r' H.
  - by injection H as <- <-.
  - ok_inv H. subst. apply parseProfile_buf in Ha. apply IH in Ha0. congruence.
Qed.

Lemma readOpNodes_buf offs r acc m nodes m' r' :
  Parse.readOpNodes offs r acc m = Ok (nodes, m', r') -> buf r' = buf r.
Proof.
  revert r acc m. induction offs as [|o offs IH]; simpl; intros r acc m H.
  - by injection H as <- <- <-.
  - ok_inv H. apply IH in H. apply readUint_buf in Ha. simpl in Ha. congruence.
Qed.

Lemma loadOpNodes_buf c r nodes m r' :
  Parse.loadOpNodes c r = Ok (nodes, m, r') -> buf r' = buf r.
Proof.
  unfold Parse.loadOpNodes, Parse.readOpNodeOffsets. intros H. ok_inv H.
  apply readOpNodes_buf in H. apply readUints_buf in Ha. simpl in Ha. congruence.
Qed.

Lemma readGlobals_buf base offs r m m' r' :
  Parse.readGlobals base offs r m = Ok (m', r') -> buf r' = buf r.
Proof.
  revert r m. induction offs as [|o offs IH]; simpl; intros r m H.
  - by injection H as <- <-.
  - ok_inv H. apply IH in H. apply readItem_buf in Ha. congruence.
Qed.

(** ** Operation values *)

Lemma forEach_Forall2 {A B} (f : A -> result B) (l : list A) (l' : list B) :
  Parse.forEach f l = Ok l' -> Forall2 (fun x y => f x = Ok y) l l'.
Proof.
  revert l'. induction l as [|x l IH]; simpl; intros l' H.
  - injection H as <-. constructor.
  - ok_inv H. subst. constructor; auto.
Qed.

(** The reads through the offset table depend on the blob only; the values
    are appended behind whatever [opNodes] held. *)
Lemma readOpNodes_append offs r acc m nodes m' r' :
  Parse.readOpNodes offs r acc m = Ok (nodes, m', r') ->
  exists vals,
    nodes = acc ++ vals /\ length vals = length offs
    /\ forall r0 acc0 m0, buf r0 = buf r ->
         exists m0' r0', Parse.readOpNodes offs r0 acc0 m0 = Ok (acc0 ++ vals, m0', r0').
Proof.
  revert r acc m. induction offs as [|o offs IH]; simpl; intros r acc m H.
  - injection H as <- <- <-. exists []. rewrite app_nil_r. split_and!; [done..|].
    intros rx accx mx _. rewrite app_nil_r. eauto.
  - apply bind_Ok in H as ([v r1] & Ha & H). apply wrapErr_Ok in Ha.
    pose proof Ha as Hb. apply readUint_buf in Hb. simpl in Hb.
    destruct (IH _ _ _ H) as (vals & -> & Hlen & Hany).
    exists (v :: vals). rewrite <- app_assoc. split_and!; [done | simpl; lia |].
    intros rx accx mx Hrx.
    assert (Seek rx o = Seek r o) as -> by (unfold Seek; congruence).
    rewrite Ha. simpl.
    destruct (Hany r1 (accx ++ [v]) (<[o:=v]> mx) eq_refl) as (mx' & rx' & Hrun).
    rewrite Hrun, <- app_assoc. eauto.
Qed.

Lemma chunks_length w n bs : length (chunks w n bs) = n.
Proof. revert bs. induction n as [|n IH]; simpl; intros bs; [done | by rewrite IH]. Qed.

Lemma readUints_length w n r v r' : readUints w n r = Ok (v, r') -> length v = Z.to_nat n.
Proof.
  unfold readUints. intros H. ok_inv H. subst.
  by rewrite length_fmap, chunks_length.
Qed.

Lemma readCollection_Ok data c r1 :
  Parse.readCollection (NewReader data) = Ok (c, r1) ->
  c = Parse.decodeCollection (take 12 data) /\ buf r1 = data /\ pos r1 = 12
  /\ (12 <= length data)%nat.
Proof.
  unfold Parse.readCollection. intros H. ok_inv H. subst.
  apply ReadFull_Ok in Ha as [Hb Hn]. destruct Hn as (Hp & Hl & ->); [done |].
  simpl in *. unfold Len in Hl. simpl in Hl. rewrite drop_0.
  change Parse.collectionSize with 12 in *. change (Z.to_nat 12) with 12%nat.
  split_and!; [done | done | lia | lia].
Qed.

Lemma loadOpNodes_Ok c r nodes m r' :
  Parse.loadOpNodes c r = Ok (nodes, m, r') ->
  exists offs ro,
    readUints 2 (Parse.opNodeCount c)
      (Seek r (Parse.opNodeStart (Parse.opNodeStartTmp c))) = Ok (offs, ro)
    /\ Parse.readOpNodes offs ro (replicate (Z.to_nat (Parse.opNodeCount c)) 0) ∅
       = Ok (nodes, m, r').
Proof.
  unfold Parse.loadOpNodes, Parse.readOpNodeOffsets. intros H.
  ok_bind H as [offs ro] Ho. eauto.
Qed.

Lemma setValues_Ok opNodes sp sp' :
  Parse.setValues opNodes sp = Ok sp' ->
  ProfileName sp' = ProfileName sp
  /\ Forall (fun o => opNodes !! Z.to_nat (Index o) = Some (Value o)) (Operations sp').
Proof.
  unfold Parse.setValues. intros H. ok_bind H as ops' Hops.
  injection H as <-. cbn [Operations ProfileName]. split; [reflexivity |].
  apply forEach_Forall2 in Hops.
  induction Hops as [|o o' os os' Hoo _ IHo]; constructor; [| exact IHo].
  revert Hoo. unfold Parse.setValue.
  destruct (_ !! _) eqn:Hlk; [| discriminate]. intros [= <-]. exact Hlk.
Qed.

(** What the code computes, for every accepted blob: the value of an
    operation is looked up in an array that holds [opNodeCount] zeros in
    front of the positional values. *)
Lemma value_lookup data opsList sb :
  ParseSandboxCollection data opsList = Ok sb ->
  exists vals,
    let n := Z.to_nat (Parse.opNodeCount (Parse.decodeCollection (take 12 data))) in
    opNodesPositional data = Ok vals /\ length vals = n
    /\ Forall (fun p => Forall (fun o =>
         (replicate n 0 ++ vals) !! Z.to_nat (Index o) = Some (Value o))
         (Operations p)) (Profiles sb).
Proof.
  unfold ParseSandboxCollection. intros H.
  ok_bind H as [c r1] Hc. ok_bind H as [t r2] Ht. ok_bind H as [sps r3] Hp.
  ok_bind H as [[opNodes opNodeMap] r4] Hn. ok_bind H as sps' Hv.
  ok_bind H as [globals r5] Hg. ok_bind H as [regexes r6] Hr.
  injection H as <-. cbv zeta. cbn [Profiles].
  pose proof (readCollection_Ok _ _ _ Hc) as (Hs & Hb1 & _ & _).
  apply readTables_buf in Ht. apply parseProfiles_buf in Hp.
  apply loadOpNodes_Ok in Hn as (offs & ro & Ho & Hn).
  pose proof (readUints_length _ _ _ _ _ Ho) as Hlen.
  destruct (readOpNodes_append _ _ _ _ _ _ _ Hn) as (vals & -> & Hvl & Hany).
  exists vals. rewrite <- Hs. split_and!.
  - unfold opNodesPositional. rewrite Hc, bind_ret.
    unfold Parse.readOpNodeOffsets.
    assert (Seek r1 (Parse.opNodeStart (Parse.opNodeStartTmp c)) =
            Seek r3 (Parse.opNodeStart (Parse.opNodeStartTmp c))) as ->
      by (unfold Seek; congruence).
    rewrite Ho. cbn [wrapErr]. rewrite bind_ret.
    destruct (Hany ro [] ∅ eq_refl) as (m0' & r0' & ->). reflexivity.
  - congruence.
  - apply forEach_Forall2 in Hv.
    induction Hv as [|p p' ps ps' Hpp _ IH]; constructor; [| exact IH].
    apply setValues_Ok in Hpp as [_ Hpp]. exact Hpp.
Qed.

(** So an index below [opNodeCount] always yields zero. *)
Lemma value_zero data opsList sb p o :
  ParseSandboxCollection data opsList = Ok sb ->
  p ∈ Profiles sb -> o ∈ Operations p ->
  0 <= Index o < Parse.opNodeCount (Parse.decodeCollection (take 12 data)) ->
  Value o = 0.
Proof.
  intros H Hp Ho Hi. destruct (value_lookup _ _ _ H) as (vals & _ & _ & Hall).
  rewrite Forall_forall in Hall. specialize (Hall p Hp).
  rewrite Forall_forall in Hall. specialize (Hall o Ho).
  rewrite lookup_app_l in Hall by (rewrite length_replicate; lia).
  apply lookup_replicate in Hall as [<- _]. done.
Qed.


(** C1 on a blob with one op node: the offset table's only entry leads to
    the value 24, and the only operation has index 0, yet its value is 0,
    the first of the zeros [make] left in front of the appended values. *)
Theorem value_not_positional :
  ParseSandboxCollection Sample.blobOneNode ["default"%string]
  = Ok (mkSandbox ∅ ∅ {[24 := 24]}
          [mkProfile ["A"%byte] 1 [mkOperation "default" 0 0]])
  /\ opNodesPositional Sample.blobOneNode = Ok [24].
Proof. split; vm_compute; reflexivity. Qed.

(** ** The header and the offset tables *)

Lemma chunks_take w n (bs : list byte) :
  chunks w n (take (w * n) bs) = chunks w n bs.
Proof.
  revert bs. induction n as [|n IH]; simpl; intros bs; [done |].
  replace (w * S n)%nat with (w + w * n)%nat by lia.
  rewrite take_take, Nat.min_l by lia. f_equal.
  rewrite <- take_drop_commute. apply IH.
Qed.

Lemma readUints_Ok w n r v r' :
  0 <= n -> 0 <= pos r ->
  readUints w n r = Ok (v, r') ->
  v = le <$> chunks w (Z.to_nat n) (drop (Z.to_nat (pos r)) (buf r))
  /\ pos r' = pos r + Z.of_nat w * n.
Proof.
  intros Hn Hp. unfold readUints. intros H.
  ok_bind H as [bs r1] Hr. injection H as <- <-.
  destruct (Z.of_nat w * n <=? 0) eqn:Hz.
  - unfold ReadFull in Hr. rewrite Hz in Hr. injection Hr as <- <-.
    assert (w = 0%nat \/ n = 0) as [-> | ->] by lia.
    + split; [| lia]. f_equal. generalize (Z.to_nat n) as k.
      generalize (drop (Z.to_nat (pos r)) (buf r)) as l.
      intros l k. revert l. induction k as [|k IH]; intros l; simpl; [done |].
      rewrite drop_0, take_0. f_equal. apply IH.
    + split; [done | lia].
  - apply ReadFull_Ok in Hr as [_ Hr]. destruct Hr as (Hpos & _ & ->); [lia |].
    split; [| done]. f_equal.
    replace (Z.to_nat (Z.of_nat w * n)) with (w * Z.to_nat n)%nat by lia.
    apply chunks_take.
Qed.

Lemma readRegexes_dom base offs r m m' r' :
  Parse.readRegexes base offs r m = Ok (m', r') ->
  dom m' = dom m ∪ list_to_set offs.
Proof.
  revert r m. induction offs as [|o offs IH]; simpl; intros r m H.
  - injection H as <- <-. by rewrite union_empty_r_L.
  - ok_bind H as [data r1] Hi. apply IH in H.
    rewrite H, dom_insert_L.
    by rewrite (comm_L (∪) {[o]} (dom m)), <- (assoc_L (∪)).
Qed.

Lemma le_bounds (bs : list byte) : 0 <= le bs < 256 ^ Z.of_nat (length bs).
Proof.
  induction bs as [|b bs IH]; simpl le; [simpl; lia |].
  rewrite length_cons, Nat2Z.inj_succ, Z.pow_succ_r by lia.
  assert (0 <= byteZ b < 256) as Hb.
  { unfold byteZ. pose proof (Byte.to_N_bounded b). lia. }
  nia.
Qed.

Lemma decodeCollection_nonneg bs :
  let c := Parse.decodeCollection bs in
  0 <= RegexItemCount c /\ 0 <= GlobalVarCount c /\ 0 <= MsgItemCount c
  /\ 0 <= ProfileCount c /\ 0 <= OpCount c /\ 0 <= OpNodeSize c.
Proof. simpl. split_and!; apply le_bounds. Qed.

Lemma readTables_regex c r t r' :
  0 <= RegexItemCount c -> 0 <= pos r ->
  Parse.readTables c r = Ok (t, r') ->
  Parse.regexOffsets t
  = le <$> chunks 2 (Z.to_nat (RegexItemCount c)) (drop (Z.to_nat (pos r)) (buf r)).
Proof.
  intros Hn Hp. unfold Parse.readTables. intros H.
  ok_bind H as [regex r7] Hx. ok_bind H as [gl r8] Hy.
  ok_bind H as [ms r9] Hz. ok_bind H as [ds r10] Hw.
  injection H as <- <-. cbn [Parse.regexOffsets].
  by apply readUints_Ok in Hx as [-> _].
Qed.

(** C3, as the code has it: the header read takes 12 bytes, the sum of the
    field widths, and the regex offsets, which become the keys of [Regexes],
    are the [uint16] values that start at byte 12 of the blob. *)
Theorem header_is_12_bytes data opsList sb :
  ParseSandboxCollection data opsList = Ok sb ->
  let c := Parse.decodeCollection (take 12 data) in
  (12 <= length data)%nat
  /\ (exists r1, Parse.readCollection (NewReader data) = Ok (c, r1) /\ pos r1 = 12)
  /\ dom (Regexes sb)
     = list_to_set (le <$> chunks 2 (Z.to_nat (RegexItemCount c)) (drop 12 data)).
Proof.
  unfold ParseSandboxCollection. intros H.
  ok_bind H as [c r1] Hc. ok_bind H as [t r2] Ht. ok_bind H as [sps r3] Hp.
  ok_bind H as [[opNodes opNodeMap] r4] Hn. ok_bind H as sps' Hv.
  ok_bind H as [globals r5] Hg. ok_bind H as [regexes r6] Hr.
  injection H as <-. cbv zeta. cbn [Regexes].
  pose proof (readCollection_Ok _ _ _ Hc) as (Hs & Hb1 & Hp1 & Hlen).
  rewrite <- Hs. split; [exact Hlen |]. split; [eauto |].
  apply readRegexes_dom in Hr. rewrite Hr, dom_empty_L, union_empty_l_L. f_equal.
  apply readTables_regex in Ht.
  - rewrite Ht, Hp1, Hb1. reflexivity.
  - subst c. apply decodeCollection_nonneg.
  - lia.
Qed.

(** The header rule on the blob [blobOneRegex]. *)
Lemma header_is_12_bytes_witness :
  let sb := mkSandbox ∅ {[1 := [zbyte 171]]} ∅ [] in
  ParseSandboxCollection Sample.blobOneRegex [] = Ok sb
  /\ (12 <= length Sample.blobOneRegex)%nat
  /\ dom (Regexes sb)
     = list_to_set (le <$> chunks 2 1 (drop 12 Sample.blobOneRegex)).
Proof.
  intros sb.
  assert (ParseSandboxCollection Sample.blobOneRegex [] = Ok sb) as H
    by (vm_compute; reflexivity).
  destruct (header_is_12_bytes Sample.blobOneRegex [] sb H) as (Hlen & _ & Hdom).
  split; [exact H |]. split; [exact Hlen | exact Hdom].
Defined.

(** The claim as written fails on a 27-byte blob: the header read ends at
    byte 12, not 16; the regex key is the [uint16] at byte 12 (which is 1),
    and the [uint16] at byte 16 (which is 2) is no key. *)
Lemma header_is_not_16_bytes :
  Parse.readCollection (NewReader Sample.blobOneRegex)
  = Ok (mkCollection 0 0 0 0 0 1 0, mkReader Sample.blobOneRegex 12)
  /\ 12 <> 16
  /\ le (take 2 (drop 12 Sample.blobOneRegex)) = 1
  /\ le (take 2 (drop 16 Sample.blobOneRegex)) = 2
  /\ ParseSandboxCollection Sample.blobOneRegex []
     = Ok (mkSandbox ∅ {[1 := [zbyte 171]]} ∅ []).
Proof. split_and!; [vm_compute; reflexivity | lia | vm_compute; reflexivity ..]. Qed.

(** ** Short reads *)

(** [binary.Read] refuses a read that the blob cannot serve in full. *)
Lemma ReadFull_short r n :
  0 < n -> Len r - pos r < n -> exists e, ReadFull r n = Err e.
Proof.
  intros Hn Hs. unfold ReadFull.
  destruct (n <=? 0) eqn:H0; [lia |].
  destruct (Len r <=? pos r); [eauto |].
  destruct (Len r - pos r <? n) eqn:H1; [eauto | lia].
Qed.

(** [r.Read] does not: as long as one byte is left it succeeds, and the
    buffer keeps the zeros of [make] where the blob ended. *)
Lemma Read_short r n :
  0 <= pos r < Len r -> Len r - pos r < n ->
  Read r n = Ok (drop (Z.to_nat (pos r)) (buf r) ++ zeros (n - (Len r - pos r)),
                 mkReader (buf r) (Len r)).
Proof.
  intros Hp Hs. unfold Read, Len in *.
  destruct (_ <=? _) eqn:H0; [lia |].
  rewrite take_ge by (rewrite length_drop; lia).
  rewrite length_drop.
  replace (Z.of_nat (length (buf r) - Z.to_nat (pos r)))
    with (Z.of_nat (length (buf r)) - pos r) by lia.
  do 3 f_equal. lia.
Qed.

(** C7 on a 20-byte blob: the regex item at byte 16 declares 4 bytes, 2
    are left; the length field is read in full, the body is not, and the
    parser returns the 2 bytes followed by 2 zeros. *)
Theorem short_regex_padded :
  length Sample.blobShortRegex = 20%nat
  /\ readUint 2 (Seek (NewReader Sample.blobShortRegex) 16)
     = Ok (4, mkReader Sample.blobShortRegex 18)
  /\ ParseSandboxCollection Sample.blobShortRegex []
     = Ok (mkSandbox ∅ {[0 := bytes [170; 187; 0; 0]]} ∅ []).
Proof. split_and!; vm_compute; reflexivity. Qed.

(** ** Names and globals *)

Lemma readUint_prefix w data v r' :
  0 < w -> readUint w (NewReader data) = Ok (v, r') -> v = le (take (Z.to_nat w) data).
Proof.
  intros Hw. unfold readUint. intros H. ok_bind H as [bs r1] Hr.
  injection H as <- <-. apply ReadFull_Ok in Hr as [_ Hr].
  destruct Hr as (_ & _ & ->); [lia |]. cbn [pos buf NewReader].
  change (Z.to_nat 0) with 0%nat. by rewrite drop_0.
Qed.

Lemma parseProfile_name c opsList r prof sp r' :
  Parse.parseProfile c opsList r prof = Ok (sp, r') ->
  exists raw r1,
    Parse.readItem "failed to read profile name length" (NewReader (buf r))
      (Parse.itemAddr (Parse.baseAddr c) (le (take 2 prof))) = Ok (raw, r1)
    /\ ProfileName sp = Trim raw.
Proof.
  unfold Parse.parseProfile. intros H.
  ok_bind H as [nameOffset pr1] Hn. ok_bind H as [version pr2] Hv.
  ok_bind H as ops Ho. ok_bind H as [str r1] Hi. injection H as <- <-.
  apply readUint_prefix in Hn; [| lia]. subst nameOffset.
  exists str, r1. split; [exact Hi | reflexivity].
Qed.

Lemma parseProfiles_names c opsList r ds sps r' :
  Parse.parseProfiles c opsList r ds = Ok (sps, r') ->
  Forall2 (fun prof sp => exists raw r1,
    Parse.readItem "failed to read profile name length" (NewReader (buf r))
      (Parse.itemAddr (Parse.baseAddr c) (le (take 2 prof))) = Ok (raw, r1)
    /\ ProfileName sp = Trim raw) ds sps.
Proof.
  revert r sps. induction ds as [|d ds IH]; simpl; intros r sps H.
  - injection H as <- <-. constructor.
  - ok_bind H as [sp r1] Hd. ok_bind H as [rest r2] Hrest. injection H as <- <-.
    constructor; [by eapply parseProfile_name |].
    apply parseProfile_buf in Hd. rewrite <- Hd. by apply IH.
Qed.

Lemma readGlobals_trimmed base offs r m m' r' (P : Z -> list byte -> Prop) :
  (forall g raw r1,
     Parse.readItem "failed to read global variable length" (NewReader (buf r))
       (Parse.itemAddr base g) = Ok (raw, r1) -> P g (Trim raw)) ->
  map_Forall P m ->
  Parse.readGlobals base offs r m = Ok (m', r') -> map_Forall P m'.
Proof.
  intros HP. revert r m HP. induction offs as [|g offs IH]; simpl; intros r m HP Hm H.
  - by injection H as <- <-.
  - ok_bind H as [str r1] Hi. pose proof (readItem_buf _ _ _ _ _ Hi) as Hb.
    eapply (IH r1); [| | exact H].
    + rewrite Hb. exact HP.
    + apply map_Forall_insert_2; [| exact Hm]. eapply HP. exact Hi.
Qed.


Lemma Trim_ends (raw : list byte) : noNULAtEnds (Trim raw).
Proof. destruct (Trim_split raw) as (a & b & _ & _ & _ & Hh & Hl). done. Qed.

(** ** The opcode-name extractor *)

(** [binary.Read] of a whole array of [n] pointers from data that holds
    it. *)
Lemma readUints_whole (n : Z) (data : list byte) :
  8 * n <= Z.of_nat (length data) ->
  exists r, readUints 8 n (NewReader data)
            = Ok (le <$> chunks 8 (Z.to_nat n) data, r).
Proof.
  intros Hlen. unfold readUints, ReadFull, Len. cbn [pos buf NewReader].
  change (Z.of_nat 8) with 8.
  destruct (Z.leb_spec (8 * n) 0) as [H0 | H0].
  { rewrite bind_ret. replace (Z.to_nat n) with 0%nat by lia. eauto. }
  destruct (Z.leb_spec (Z.of_nat (length data)) 0) as [H1 | H1]; [lia |].
  destruct (Z.ltb_spec (Z.of_nat (length data) - 0) (8 * n)) as [H2 | H2]; [lia |].
  rewrite bind_ret. change (Z.to_nat 0) with 0%nat. rewrite drop_0.
  replace (Z.to_nat (8 * n)) with (8 * Z.to_nat n)%nat by lia.
  rewrite chunks_take. eauto.
Qed.

Section Opts.

Variable tagPtrMask : Z.
Variable maxAlloc : N.
Variable m : MachoFile.

(** The loop, started in any state, appends what the described scan
    yields. *)
Lemma optsLoop_scan (st : optsState) (ptrs : list Z) :
  bcOpts (optsLoop tagPtrMask m st ptrs)
  = bcOpts st ++ opcodeScan tagPtrMask m (found st) ptrs.
Proof.
  revert st. induction ptrs as [|ptr rest IH]; intros st.
  { cbn [optsLoop opcodeScan]. by rewrite app_nil_r. }
  cbn [optsLoop opcodeScan]. unfold optsBody.
  destruct (ptr =? 0); [apply IH |].
  destruct (GetCString m (Z.lor ptr tagPtrMask)) as [str|].
  2:{ destruct (found st) eqn:Hf; [by rewrite app_nil_r |].
      rewrite IH, Hf. reflexivity. }
  assert ((if String.eqb str "default" then true else found st)
          = found st || String.eqb str "default") as ->
    by (destruct (String.eqb str "default"), (found st); reflexivity).
  destruct (found st || String.eqb str "default").
  - destruct (getTag ptr =? 0x17); cbn [negb bcOpts].
    + rewrite IH. cbn [bcOpts found]. by rewrite <- app_assoc.
    + reflexivity.
  - rewrite IH. reflexivity.
Qed.

(** C5: where the section and its data are there, the array can be
    allocated and the data holds it, [GetSandboxOpts] returns what the
    described scan yields on the whole array of [Size / 8] pointers, started
    with ["default"] not seen.  The scan goes by the rules of the
    description: nothing is kept of an empty array; a zero pointer is
    skipped; a failed read is ignored before ["default"] and ends the scan,
    with nothing appended, after it; from ["default"] on a string read is
    appended, and the scan goes on behind a pointer tagged [0x17] and ends
    behind any other; before ["default"] another string is not appended. *)
Theorem opts_are_the_scan (dconst : MachoSection) (data : list byte) :
  FindSection m "__DATA_CONST" "__const" = Some dconst ->
  Data dconst = Some data ->
  makeslice maxAlloc 8 (Size dconst / 8) = Ok tt ->
  8 * (Size dconst / 8) <= Z.of_nat (length data) ->
  let ptrs := le <$> chunks 8 (Z.to_nat (Size dconst / 8)) data in
  let scan := opcodeScan tagPtrMask m in
  let read ptr := GetCString m (Z.lor ptr tagPtrMask) in
  GetSandboxOpts tagPtrMask maxAlloc m = Ok (scan false ptrs)
  /\ (forall seen, scan seen [] = [])
  /\ (forall seen rest, scan seen (0 :: rest) = scan seen rest)
  /\ (forall ptr rest, ptr <> 0 -> read ptr = None ->
        scan false (ptr :: rest) = scan false rest)
  /\ (forall ptr rest, ptr <> 0 -> read ptr = None ->
        scan true (ptr :: rest) = [])
  /\ (forall seen ptr rest str, ptr <> 0 -> read ptr = Some str ->
        seen = true \/ str = "default"%string -> getTag ptr = 0x17 ->
        scan seen (ptr :: rest) = str :: scan true rest)
  /\ (forall seen ptr rest str, ptr <> 0 -> read ptr = Some str ->
        seen = true \/ str = "default"%string -> getTag ptr <> 0x17 ->
        scan seen (ptr :: rest) = [str])
  /\ (forall ptr rest str, ptr <> 0 -> read ptr = Some str ->
        str <> "default"%string ->
        scan false (ptr :: rest) = scan false rest).
Proof.
  intros HS HD HM Hlen ptrs scan read. subst scan read.
  assert (forall seen str, seen = true \/ str = "default"%string ->
          seen || String.eqb str "default" = true) as Hseen.
  { intros seen str [-> | ->]; [reflexivity | by rewrite String.eqb_refl, orb_true_r]. }
  split_and!.
  - unfold GetSandboxOpts. rewrite HS, HD. cbn [service]. rewrite bind_ret.
    rewrite HM, bind_ret.
    destruct (readUints_whole (Size dconst / 8) data Hlen) as [r ->].
    rewrite bind_ret. rewrite optsLoop_scan. reflexivity.
  - reflexivity.
  - reflexivity.
  - intros ptr rest Hp Hr. apply Z.eqb_neq in Hp.
    cbn [opcodeScan]. rewrite Hp, Hr. reflexivity.
  - intros ptr rest Hp Hr. apply Z.eqb_neq in Hp.
    cbn [opcodeScan]. rewrite Hp, Hr. reflexivity.
  - intros seen ptr rest str Hp Hr Hd Ht. apply Z.eqb_neq in Hp.
    cbn [opcodeScan]. rewrite Hp, Hr, (Hseen _ _ Hd), Ht, Z.eqb_refl. reflexivity.
  - intros seen ptr rest str Hp Hr Hd Ht. apply Z.eqb_neq in Hp. apply Z.eqb_neq in Ht.
    cbn [opcodeScan]. rewrite Hp, Hr, (Hseen _ _ Hd), Ht. reflexivity.
  - intros ptr rest str Hp Hr Hd. apply Z.eqb_neq in Hp. apply String.eqb_neq in Hd.
    cbn [opcodeScan]. rewrite Hp, Hr, Hd. reflexivity.
Qed.

(** Before ["default"], a string that is read is not appended. *)
Lemma opts_scan_before (st : optsState) (ptr : Z) (rest : list Z) (str : string) :
  ptr <> 0 -> GetCString m (Z.lor ptr tagPtrMask) = Some str ->
  found st = false -> str <> "default"%string ->
  optsLoop tagPtrMask m st (ptr :: rest) = optsLoop tagPtrMask m st rest.
Proof.
  intros Hp Hs Hf Hd. cbn [optsLoop]. unfold optsBody.
  apply Z.eqb_neq in Hp. apply String.eqb_neq in Hd.
  rewrite Hp, Hs, Hd, Hf. destruct st as [f l]. simpl in Hf. subst f. reflexivity.
Qed.

Lemma optsBody_inv (st : optsState) (ptr : Z) :
  optsInv st -> optsInv (snd (optsBody tagPtrMask m st ptr)).
Proof.
  intros Hinv. unfold optsBody.
  destruct (ptr =? 0); [exact Hinv |].
  destruct (GetCString m _) as [str|]; [| by destruct (found st)].
  destruct (String.eqb str "default") eqn:Hd.
  - apply String.eqb_eq in Hd. subst str.
    assert (optsInv (mkOpts true (bcOpts st ++ ["default"%string]))) as Hnew.
    { right. split; [reflexivity |]. cbn [bcOpts].
      destruct Hinv as [[_ ->] | [_ Hh]]; [reflexivity |].
      destruct (bcOpts st); [discriminate | exact Hh]. }
    by destruct (negb _).
  - destruct (found st) eqn:Hf.
    + assert (optsInv (mkOpts true (bcOpts st ++ [str]))) as Hnew.
      { right. split; [reflexivity |]. cbn [bcOpts].
        destruct Hinv as [[Hc _] | [_ Hh]]; [congruence |].
        destruct (bcOpts st); [discriminate | exact Hh]. }
      by destruct (negb _).
    + destruct Hinv as [[_ Hl] | [Hc _]]; [| congruence].
      left. split; [reflexivity | exact Hl].
Qed.

Lemma optsLoop_inv (st : optsState) (ptrs : list Z) :
  optsInv st -> optsInv (optsLoop tagPtrMask m st ptrs).
Proof.
  revert st. induction ptrs as [|ptr rest IH]; intros st Hinv; [exact Hinv |].
  cbn [optsLoop]. pose proof (optsBody_inv st ptr Hinv) as Hstep.
  destruct (optsBody tagPtrMask m st ptr) as [[|] st1]; cbn [snd] in Hstep; [by apply IH | exact Hstep].
Qed.

(** C10: a list that [GetSandboxOpts] returns is empty or starts with
    ["default"]; without a [__DATA_CONST,__const] section the list is empty
    and there is no error. *)
Theorem opts_start_with_default :
  (forall l, GetSandboxOpts tagPtrMask maxAlloc m = Ok l ->
     l = [] \/ head l = Some "default"%string)
  /\ (FindSection m "__DATA_CONST" "__const" = None ->
      GetSandboxOpts tagPtrMask maxAlloc m = Ok []).
Proof.
  split.
  - unfold GetSandboxOpts. intros l H.
    destruct (FindSection m _ _) as [dconst|]; [| injection H as <-; by left].
    ok_bind H as data Hd. ok_bind H as u Hu. ok_bind H as [ptrs r] Hr.
    injection H as <-.
    destruct (optsLoop_inv (mkOpts false []) ptrs) as [[_ ->] | [_ Hh]];
      [left; done | by left | by right].
  - unfold GetSandboxOpts. intros ->. reflexivity.
Qed.

End Opts.


(** The scan of the sample array, pointer by pointer: ["default"] and
    ["file*"] are kept behind the tag [0x17], ["mach*"] is kept and ends the
    scan behind the tag [0x10]; the zero pointer and ["unrelated"] are not
    reached. *)
Lemma opts_are_the_scan_witness :
  le <$> chunks 8 (Z.to_nat (Size Sample.optsSection / 8))
           (mjoin (Sample.u64le <$> Sample.optsPtrs)) = Sample.optsPtrs
  /\ opcodeScan Sample.tagPtrMask Sample.optsFile false Sample.optsPtrs
     = ["default"; "file*"; "mach*"]%string
  /\ GetSandboxOpts Sample.tagPtrMask Sample.maxAlloc Sample.optsFile
     = Ok ["default"; "file*"; "mach*"]%string.
Proof.
  assert (le <$> chunks 8 (Z.to_nat (Size Sample.optsSection / 8))
                   (mjoin (Sample.u64le <$> Sample.optsPtrs)) = Sample.optsPtrs) as Heq
    by (vm_compute; reflexivity).
  assert (opcodeScan Sample.tagPtrMask Sample.optsFile false Sample.optsPtrs
          = ["default"; "file*"; "mach*"]%string) as Hscan
    by (vm_compute; reflexivity).
  split_and!; [exact Heq | exact Hscan |].
  destruct (opts_are_the_scan Sample.tagPtrMask Sample.maxAlloc Sample.optsFile
              Sample.optsSection (mjoin (Sample.u64le <$> Sample.optsPtrs)))
    as [Hrun _];
    [reflexivity | reflexivity | reflexivity | vm_compute; discriminate |].
  rewrite Hrun, Heq, Hscan. reflexivity.
Defined.

(** The whole scan of the sample array. *)
Example opts_sample :
  GetSandboxOpts Sample.tagPtrMask Sample.maxAlloc Sample.optsFile
  = Ok ["default"; "file*"; "mach*"]%string.
Proof. vm_compute. reflexivity. Qed.

(** The rule on the sample array and on a file without the section. *)
Lemma opts_start_with_default_witness :
  (GetSandboxOpts Sample.tagPtrMask Sample.maxAlloc Sample.optsFile
   = Ok ["default"; "file*"; "mach*"]%string
   /\ head ["default"; "file*"; "mach*"]%string = Some "default"%string)
  /\ FindSection Sample.noConstFile "__DATA_CONST" "__const" = None
  /\ GetSandboxOpts Sample.tagPtrMask Sample.maxAlloc Sample.noConstFile = Ok [].
Proof.
  assert (GetSandboxOpts Sample.tagPtrMask Sample.maxAlloc Sample.optsFile
          = Ok ["default"; "file*"; "mach*"]%string) as H by (vm_compute; reflexivity).
  split.
  - split; [exact H |].
    destruct (proj1 (opts_start_with_default Sample.tagPtrMask Sample.maxAlloc
                       Sample.optsFile) _ H)
      as [Hnil | Hhd]; [discriminate Hnil | exact Hhd].
  - split; [reflexivity |].
    apply (opts_start_with_default Sample.tagPtrMask Sample.maxAlloc Sample.noConstFile).
    reflexivity.
Defined.


(** ** The locator *)

Lemma lor_disjoint (a b : Z) : Z.land a b = 0 -> a + b = Z.lor a b.
Proof. intros H. rewrite Z.add_nocarry_lxor by exact H. by apply Z.lxor_lor. Qed.

Lemma lor_u64 (a b : Z) :
  0 <= a < 2 ^ 64 -> 0 <= b < 2 ^ 64 -> U.u64 (Z.lor a b) = Z.lor a b.
Proof.
  intros Ha Hb. unfold U.u64, U.wrap.
  change (2 ^ 64) with (2 ^ 64) in *. rewrite <- Z.land_ones by lia.
  rewrite Z.land_lor_distr_l, !Z.land_ones by lia.
  by rewrite !Z.mod_small by lia.
Qed.

Section LocatorProps.

Variable Decompose : Z -> Z -> option Instruction.

(** C6, as the code has it: for a [MOVK Rd, #imm2, LSL #s] in the window
    that follows a [MOV Rd, #imm], the size recorded is the sum
    [imm + (imm2 << s)] in [uint64], and the profile address is left alone.
    The sum is [imm | (imm2 << s)] when the two share no bit. *)
Theorem movk_size_is_sum (failXrefVMAddr : Z) (st : findState) (rd : option Z)
    (prev ins : Instruction) (p0 p1 o0 o1 : Operand) (prest orest : list Operand)
    (reg : Z) (pregs oregs : list Z) :
  Decompose (startAddr2 st) (default (instrValue2 st) rd) = Some ins ->
  inWindow failXrefVMAddr ins = true ->
  prevInstr2 st = Some prev ->
  Operation prev = ARM64_MOV -> Operation ins = ARM64_MOVK ->
  Operands prev = Some (p0 :: p1 :: prest) -> Registers p0 = reg :: pregs ->
  Operands ins = Some (o0 :: o1 :: orest) -> Registers o0 = reg :: oregs ->
  Class o1 = IMM32 -> ShiftType o1 = SHIFT_TYPE_LSL ->
  exists st',
    findBody Decompose failXrefVMAddr st rd = Ok st'
    /\ profileVMAddr st' = profileVMAddr st
    /\ profileSize st'
       = U.u64 (Immediate p1 + U.shl64 (Immediate o1) (ShiftValue o1))
    /\ (0 <= Immediate p1 < 2 ^ 64 ->
        0 <= Z.shiftl (Immediate o1) (ShiftValue o1) < 2 ^ 64 ->
        Z.land (Immediate p1) (Z.shiftl (Immediate o1) (ShiftValue o1)) = 0 ->
        profileSize st' = movMovk (Immediate p1) (Immediate o1) (ShiftValue o1)).
Proof.
  intros Hdec Hwin Hprev Hmov Hmovk Hpo Hpr Hio Hir Hcl Hsh.
  assert (windowBody (Some prev) ins (profileVMAddr st) (profileSize st)
          = Ok (profileVMAddr st,
                U.u64 (Immediate p1 + U.shl64 (Immediate o1) (ShiftValue o1)))) as Hw.
  { unfold windowBody, afterADRP. rewrite Hmov, Hmovk.
    rewrite decide_False by discriminate.
    rewrite decide_False by discriminate.
    rewrite decide_True by reflexivity.
    rewrite decide_True by reflexivity.
    unfold movkSize, register0, at_. rewrite Hio, Hpo. cbn [lookup list_lookup].
    rewrite bind_ret, Hpr. cbn [lookup list_lookup]. rewrite !bind_ret, Hir.
    cbn [lookup list_lookup]. rewrite bind_ret, Z.eqb_refl.
    rewrite decide_True by exact Hcl. rewrite decide_True by exact Hsh.
    rewrite bind_ret. reflexivity. }
  eexists. split; [| split; [| split]].
  - unfold findBody. rewrite Hdec, Hwin, Hprev, Hw, bind_ret. reflexivity.
  - reflexivity.
  - reflexivity.
  - intros Hi Hs Hd. cbn [profileSize]. unfold U.shl64, movMovk.
    assert (U.u64 (Z.shiftl (Immediate o1) (ShiftValue o1))
            = Z.shiftl (Immediate o1) (ShiftValue o1)) as ->
      by (unfold U.u64, U.wrap; apply Z.mod_small; exact Hs).
    rewrite lor_disjoint by exact Hd. by apply lor_u64.
Qed.

End LocatorProps.


(** The pair [MOV X0, #0x1234; MOVK X0, #0x5, LSL #16] before a branch at
    [0x1008]: the size recorded is [0x51234]. *)
Lemma movk_size_is_sum_witness :
  let st := mkFind 1 (Some (Sample.MOV 0x1000 0 0x1234)) 0x1004 0 0x1234 in
  exists st',
    findBody Sample.sizeDecompose 0x1008 st (Some 2) = Ok st'
    /\ profileSize st' = 0x51234.
Proof.
  intros st.
  destruct (movk_size_is_sum Sample.sizeDecompose 0x1008 st (Some 2)
              (Sample.MOV 0x1000 0 0x1234) (Sample.MOVK 0x1004 0 0x5 16)
              (Sample.reg 0) (Sample.imm64 0x1234)
              (Sample.reg 0) (Sample.imm32lsl 0x5 16) [] [] 0 [] [])
    as (st' & Hrun & _ & _ & Hor); try reflexivity.
  exists st'. split; [exact Hrun |].
  rewrite Hor; [reflexivity | | | reflexivity];
    vm_compute; (split; [discriminate | reflexivity]).
Defined.

(** The claim as written fails on [MOV X0, #0x10000; MOVK X0, #0x1, LSL #16]:
    the two immediates share bit 16, the code adds them to [0x20000], and
    [imm | (imm2 << s)] is [0x10000]. *)
Lemma movk_size_is_not_or :
  findLoop Sample.sizeDecompose 0x1008 (mkFind 0 None 0x1000 0 0) [Some 3; Some 4]
  = Ok (mkFind 4 (Some (Sample.MOVK 0x1004 0 0x1 16)) 0x1008 0 0x20000)
  /\ movMovk 0x10000 0x1 16 = 0x10000
  /\ 0x20000 <> movMovk 0x10000 0x1 16.
Proof. split_and!; [vm_compute; reflexivity .. | vm_compute; discriminate]. Qed.


(** *** Errors of the locator *)






(** A slice of length zero can always be made. *)
Lemma makeslice_zero maxAlloc w : makeslice maxAlloc w 0 = Ok tt.
Proof.
  unfold makeslice. rewrite Z.mul_0_r.
  destruct (Z.ltb_spec (Z.of_N maxAlloc) 0); [lia | reflexivity].
Qed.

Lemma readBytes_zero maxAlloc m off :
  readBytes maxAlloc m 0 off = service "ReadAt" (ReadAt m 0 off).
Proof. unfold readBytes. by rewrite makeslice_zero, bind_ret. Qed.





Section LocatorErrors.

Variable tagPtrMask : Z.
Variable maxAlloc : N.
Variable Decompose : Z -> Z -> option Instruction.
Variable rangeOrder : nat -> gmap Z Z -> list (Z * Z).









End LocatorErrors.



(** * Further properties of the parser *)

Lemma le_take_bound (n : nat) (bs : list byte) : 0 <= le (take n bs) < 256 ^ Z.of_nat n.
Proof.
  pose proof (le_bounds (take n bs)) as H.
  assert (length (take n bs) <= n)%nat as Hl by (rewrite length_take; lia).
  assert (256 ^ Z.of_nat (length (take n bs)) <= 256 ^ Z.of_nat n)
    by (apply Z.pow_le_mono_r; lia).
  lia.
Qed.

(** The header fields have the range of their Go types. *)
Lemma decodeCollection_range bs :
  let c := Parse.decodeCollection bs in
  0 <= Version c < 2 ^ 16 /\ 0 <= OpNodeSize c < 2 ^ 16 /\ 0 <= OpCount c < 2 ^ 8
  /\ 0 <= GlobalVarCount c < 2 ^ 8 /\ 0 <= ProfileCount c < 2 ^ 16
  /\ 0 <= RegexItemCount c < 2 ^ 16 /\ 0 <= MsgItemCount c < 2 ^ 16.
Proof.
  cbv zeta. unfold Parse.decodeCollection.
  cbn [Version OpNodeSize OpCount GlobalVarCount ProfileCount RegexItemCount MsgItemCount].
  split_and!; first [apply (le_take_bound 2) | apply (le_take_bound 1)].
Qed.

(** A blob shorter than the 12-byte header is refused: with [io.EOF] when
    it is empty, with [io.ErrUnexpectedEOF] otherwise. *)
Theorem parse_short_header (data : list byte) (opsList : list string) :
  (length data < 12)%nat ->
  ParseSandboxCollection data opsList
  = Err (Errorf "failed to read sandbox profile collection structure"
           (if decide (data = []) then EOF else ErrUnexpectedEOF)).
Proof.
  intros Hlen. unfold ParseSandboxCollection, Parse.readCollection, ReadFull.
  change (Parse.collectionSize <=? 0) with false. cbv zeta.
  unfold Len. cbn [buf pos NewReader].
  destruct data as [|b data].
  - reflexivity.
  - rewrite decide_False by discriminate.
    destruct (Z.leb_spec (Z.of_nat (length (b :: data))) 0) as [H0 | H0];
      [cbn [length] in H0; lia |].
    destruct (Z.ltb_spec (Z.of_nat (length (b :: data)) - 0) Parse.collectionSize)
      as [H1 | H1]; [reflexivity |].
    change Parse.collectionSize with 12 in H1. lia.
Qed.

Lemma parse_short_header_witness :
  ParseSandboxCollection (bytes [1; 0; 4]) []
  = Err (Errorf "failed to read sandbox profile collection structure" ErrUnexpectedEOF).
Proof. apply (parse_short_header (bytes [1; 0; 4]) []). vm_compute. lia. Defined.

(** ** What the stages read *)

Lemma readUint_Ok (w : Z) (r : Reader) (v : Z) (r' : Reader) :
  0 < w -> 0 <= pos r ->
  readUint w r = Ok (v, r') ->
  v = le (take (Z.to_nat w) (drop (Z.to_nat (pos r)) (buf r)))
  /\ pos r' = pos r + w /\ buf r' = buf r /\ pos r + w <= Len r.
Proof.
  intros Hw Hp. unfold readUint. intros H. ok_bind H as [bs r1] Hr.
  injection H as <- <-. apply ReadFull_Ok in Hr as [Hb Hr].
  destruct (Hr Hw) as (Hpos & Hlen & ->). done.
Qed.

Lemma chunks_zero (n : nat) (bs : list byte) : chunks 0 n bs = replicate n [].
Proof.
  revert bs. induction n as [|n IH]; intros bs; [reflexivity |].
  cbn [chunks replicate]. by rewrite take_0, drop_0, IH.
Qed.

Lemma readProfileDatas_Ok (n : nat) (size : Z) (r : Reader) ds r' :
  0 <= size -> 0 <= pos r ->
  Parse.readProfileDatas n size r = Ok (ds, r') ->
  ds = chunks (Z.to_nat size) n (drop (Z.to_nat (pos r)) (buf r))
  /\ pos r' = pos r + size * Z.of_nat n /\ buf r' = buf r.
Proof.
  intros Hs. revert r ds r'. induction n as [|n IH]; intros r ds r' Hp; cbn [Parse.readProfileDatas].
  - intros [= <- <-]. split_and!; [reflexivity | lia | reflexivity].
  - intros H. ok_bind H as [profile r1] Hr. ok_bind H as [rest r2] Hrest.
    injection H as <- <-.
    destruct (Z.eq_dec size 0) as [-> | Hnz].
    + revert Hr. unfold ReadFull. change (0 <=? 0) with true. intros [= <- <-].
      apply IH in Hrest as (-> & Hpos & Hbuf); [| exact Hp].
      change (Z.to_nat 0) with 0%nat. cbn [chunks]. rewrite take_0, drop_0.
      split_and!; [reflexivity | lia | exact Hbuf].
    + apply ReadFull_Ok in Hr as [Hb Hr]. destruct Hr as (Hpos & Hlen & ->); [lia |].
      apply IH in Hrest as (-> & Hpos' & Hbuf); [| lia].
      cbn [chunks]. rewrite Hb, Hpos, drop_drop.
      replace (Z.to_nat (pos r + size)) with (Z.to_nat (pos r) + Z.to_nat size)%nat by lia.
      split_and!; [reflexivity | lia | congruence].
Qed.

(** The tables and records lie one behind the other from where the header
    ends. *)
Lemma readTables_Ok (c : SandboxProfileCollection) (r : Reader) t r' :
  0 <= pos r -> 0 <= RegexItemCount c -> 0 <= GlobalVarCount c ->
  0 <= MsgItemCount c -> 0 <= ProfileCount c ->
  Parse.readTables c r = Ok (t, r') ->
  let p := pos r in
  let at_ (off : Z) := drop (Z.to_nat off) (buf r) in
  Parse.regexOffsets t = le <$> chunks 2 (Z.to_nat (RegexItemCount c)) (at_ p)
  /\ Parse.globalOffsets t
     = le <$> chunks 2 (Z.to_nat (GlobalVarCount c)) (at_ (p + 2 * RegexItemCount c))
  /\ Parse.msgOffsets t
     = le <$> chunks 2 (Z.to_nat (MsgItemCount c))
         (at_ (p + 2 * RegexItemCount c + 2 * GlobalVarCount c))
  /\ Parse.profileDatas t
     = chunks (Z.to_nat (Parse.profileSize c)) (Z.to_nat (ProfileCount c))
         (at_ (p + 2 * RegexItemCount c + 2 * GlobalVarCount c + 2 * MsgItemCount c))
  /\ pos r' = p + 2 * RegexItemCount c + 2 * GlobalVarCount c + 2 * MsgItemCount c
              + Parse.profileSize c * ProfileCount c
  /\ buf r' = buf r.
Proof.
  intros Hp HR HG HM HP. unfold Parse.readTables. intros H.
  ok_bind H as [regex r1] Hx. ok_bind H as [gl r2] Hy.
  ok_bind H as [ms r3] Hz. ok_bind H as [ds r4] Hw.
  injection H as <- <-. cbv zeta.
  cbn [Parse.regexOffsets Parse.globalOffsets Parse.msgOffsets Parse.profileDatas].
  pose proof (readUints_buf _ _ _ _ _ Hx) as Hb1.
  pose proof (readUints_buf _ _ _ _ _ Hy) as Hb2.
  pose proof (readUints_buf _ _ _ _ _ Hz) as Hb3.
  apply readUints_Ok in Hx as [-> Hp1]; [| lia | lia].
  apply readUints_Ok in Hy as [-> Hp2]; [| lia | lia].
  apply readUints_Ok in Hz as [-> Hp3]; [| lia | lia].
  assert (0 <= Parse.profileSize c) as Hps.
  { unfold Parse.profileSize, U.u32, U.wrap. apply Z.mod_pos_bound. lia. }
  apply readProfileDatas_Ok in Hw as (-> & Hp4 & Hb4); [| exact Hps | lia].
  rewrite Hb3, Hb2, Hb1, Hp3, Hp2, Hp1, Hp4.
  change (Z.of_nat 2) with 2.
  split_and!; [reflexivity | reflexivity | reflexivity | reflexivity | | congruence].
  rewrite Z2Nat.id by lia. lia.
Qed.

(** The position the parser computes for the end of the records is the
    position its reader has reached there: no term of the sum wraps. *)
Lemma opNodeStartTmp_exact (c : SandboxProfileCollection) :
  0 <= OpCount c < 2 ^ 8 -> 0 <= GlobalVarCount c < 2 ^ 8 ->
  0 <= ProfileCount c < 2 ^ 16 -> 0 <= RegexItemCount c < 2 ^ 16 ->
  0 <= MsgItemCount c < 2 ^ 16 ->
  Parse.opNodeStartTmp c
  = 12 + 2 * RegexItemCount c + 2 * GlobalVarCount c + 2 * MsgItemCount c
    + Parse.profileSize c * ProfileCount c
  /\ 0 <= Parse.profileSize c <= 510.
Proof.
  intros HO HG HP HR HM.
  assert (0 <= Parse.profileSize c <= 510) as Hps.
  { unfold Parse.profileSize, U.u32, U.u8, U.wrap.
    change (2 mod 2 ^ 8) with 2.
    pose proof (Z.mod_pos_bound (OpCount c + 2) (2 ^ 8) ltac:(lia)) as Hm.
    rewrite (Z.mod_small ((OpCount c + 2) mod 2 ^ 8)) by lia.
    rewrite Z.mod_small by lia. lia. }
  split; [| exact Hps].
  unfold Parse.opNodeStartTmp, Parse.globalVarEnd, Parse.globalVarStart, U.u32, U.wrap.
  generalize dependent (Parse.profileSize c). intros ps Hps.
  rewrite (Z.mod_small (RegexItemCount c)) by lia.
  rewrite (Z.mod_small (2 * RegexItemCount c)) by lia.
  rewrite (Z.mod_small (2 * RegexItemCount c + 12)) by lia.
  rewrite (Z.mod_small (GlobalVarCount c)) by lia.
  rewrite (Z.mod_small (2 * GlobalVarCount c)) by lia.
  rewrite (Z.mod_small (2 * RegexItemCount c + 12 + 2 * GlobalVarCount c)) by lia.
  rewrite (Z.mod_small (MsgItemCount c)) by lia.
  rewrite (Z.mod_small (2 * MsgItemCount c)) by lia.
  rewrite (Z.mod_small (2 * RegexItemCount c + 12 + 2 * GlobalVarCount c + 2 * MsgItemCount c)) by lia.
  rewrite (Z.mod_small (ProfileCount c)) by lia.
  rewrite (Z.mod_small (ps * ProfileCount c)) by nia.
  rewrite Z.mod_small by nia. lia.
Qed.

Lemma ReadFull_pos_le r n bs r' :
  ReadFull r n = Ok (bs, r') -> pos r <= Len r -> pos r' <= Len r'.
Proof.
  intros H Hle. pose proof (ReadFull_Ok _ _ _ _ H) as [Hb Hn].
  unfold Len in *. rewrite Hb.
  destruct (Z.le_gt_cases n 0) as [H0 | H0].
  - revert H. unfold ReadFull. destruct (Z.leb_spec n 0); [| lia]. by intros [= <- <-].
  - destruct (Hn H0) as (-> & Hl & _). unfold Len in Hl. lia.
Qed.

Lemma readUints_pos_le w n r v r' :
  readUints w n r = Ok (v, r') -> pos r <= Len r -> pos r' <= Len r'.
Proof.
  unfold readUints. intros H. ok_bind H as [bs r1] Hr. injection H as <- <-.
  by eapply ReadFull_pos_le.
Qed.

Lemma readProfileDatas_pos_le n size r ds r' :
  Parse.readProfileDatas n size r = Ok (ds, r') -> pos r <= Len r -> pos r' <= Len r'.
Proof.
  revert r ds r'. induction n as [|n IH]; intros r ds r'; cbn [Parse.readProfileDatas].
  - by intros [= <- <-].
  - intros H Hle. ok_bind H as [profile r1] Hr. ok_bind H as [rest r2] Hrest.
    injection H as <- <-. eapply IH; [exact Hrest |]. by eapply ReadFull_pos_le.
Qed.

Lemma readTables_pos_le c r t r' :
  Parse.readTables c r = Ok (t, r') -> pos r <= Len r -> pos r' <= Len r'.
Proof.
  unfold Parse.readTables. intros H Hle.
  ok_bind H as [regex r1] Hx. ok_bind H as [gl r2] Hy.
  ok_bind H as [ms r3] Hz. ok_bind H as [ds r4] Hw. injection H as <- <-.
  eapply readProfileDatas_pos_le; [exact Hw |].
  eapply readUints_pos_le; [exact Hz |].
  eapply readUints_pos_le; [exact Hy |].
  eapply readUints_pos_le; [exact Hx | exact Hle].
Qed.

(** The stages of an accepted parse, with the header decoded from the first
    12 bytes and the reader standing behind them. *)
Lemma parse_stages (data : list byte) (opsList : list string) (sb : Sandbox) :
  ParseSandboxCollection data opsList = Ok sb ->
  let c := Parse.decodeCollection (take 12 data) in
  (12 <= length data)%nat
  /\ exists t r2 sps r3 opNodes r4 r5 r6,
       Parse.readTables c (mkReader data 12) = Ok (t, r2)
       /\ Parse.parseProfiles c opsList r2 (Parse.profileDatas t) = Ok (sps, r3)
       /\ Parse.loadOpNodes c r3 = Ok (opNodes, OpNodes sb, r4)
       /\ Parse.forEach (Parse.setValues opNodes) sps = Ok (Profiles sb)
       /\ Parse.readGlobals (Parse.baseAddr c) (Parse.globalOffsets t) r4 ∅
          = Ok (Globals sb, r5)
       /\ Parse.readRegexes (Parse.baseAddr c) (Parse.regexOffsets t) r5 ∅
          = Ok (Regexes sb, r6).
Proof.
  unfold ParseSandboxCollection. intros H.
  ok_bind H as [c r1] Hc. ok_bind H as [t r2] Ht. ok_bind H as [sps r3] Hp.
  ok_bind H as [[opNodes opNodeMap] r4] Hn. ok_bind H as sps' Hv.
  ok_bind H as [globals r5] Hg. ok_bind H as [regexes r6] Hr.
  injection H as <-. cbv zeta. cbn [Profiles Globals Regexes OpNodes].
  pose proof (readCollection_Ok _ _ _ Hc) as (Hs & Hb1 & Hp1 & Hlen).
  rewrite <- Hs. split; [exact Hlen |].
  destruct r1 as [b1 p1]. cbn [buf pos] in Hb1, Hp1. subst b1 p1.
  exists t, r2, sps, r3, opNodes, r4, r5, r6. done.
Qed.

(** Every accepted blob holds its tables and profile records: they end at
    the position [opNodeStartTmp] the parser computes, which is the plain sum
    of their sizes and lies inside the blob. *)
Theorem records_end_in_blob (data : list byte) (opsList : list string) (sb : Sandbox) :
  ParseSandboxCollection data opsList = Ok sb ->
  let c := Parse.decodeCollection (take 12 data) in
  Parse.opNodeStartTmp c
  = 12 + 2 * RegexItemCount c + 2 * GlobalVarCount c + 2 * MsgItemCount c
    + Parse.profileSize c * ProfileCount c
  /\ Parse.opNodeStartTmp c <= Z.of_nat (length data)
  /\ exists t r2, Parse.readTables c (mkReader data 12) = Ok (t, r2)
                  /\ pos r2 = Parse.opNodeStartTmp c.
Proof.
  intros H. apply parse_stages in H. cbv zeta in *.
  destruct H as (Hlen & t & r2 & sps & r3 & opNodes & r4 & r5 & r6 & Ht & _).
  pose proof (decodeCollection_range (take 12 data)) as Hrange. cbv zeta in Hrange.
  generalize dependent (Parse.decodeCollection (take 12 data)). intros c Ht Hrange.
  destruct Hrange as (_ & _ & HO & HG & HP & HR & HM).
  destruct (opNodeStartTmp_exact c HO HG HP HR HM) as [Hsum _].
  pose proof (readTables_pos_le _ _ _ _ Ht) as Hle.
  assert (0 <= pos (mkReader data 12)) as Hp0 by (cbn [pos]; lia).
  pose proof (readTables_Ok c (mkReader data 12) t r2 Hp0 ltac:(lia) ltac:(lia)
                ltac:(lia) ltac:(lia) Ht) as Hlay.
  cbv zeta in Hlay. destruct Hlay as (_ & _ & _ & _ & Hpos & Hbuf).
  cbn [pos buf] in Hpos, Hbuf.
  assert (pos r2 = Parse.opNodeStartTmp c) as Heq by lia.
  split; [exact Hsum |]. split; [| eauto].
  rewrite <- Heq. unfold Len in Hle. rewrite Hbuf in Hle. cbn [pos buf] in Hle.
  apply Hle. lia.
Qed.

Lemma records_end_in_blob_witness :
  let c := Parse.decodeCollection (take 12 Sample.blobOneNode) in
  Parse.opNodeStartTmp c = 18 /\ Parse.opNodeStartTmp c <= 35.
Proof.
  assert (ParseSandboxCollection Sample.blobOneNode ["default"%string]
          = Ok (mkSandbox ∅ ∅ {[24 := 24]}
                  [mkProfile ["A"%byte] 1 [mkOperation "default" 0 0]])) as H
    by (vm_compute; reflexivity).
  destruct (records_end_in_blob _ _ _ H) as (Hsum & Hle & _).
  split; [rewrite Hsum; reflexivity | exact Hle].
Defined.

(** ** Profiles and their operations *)

Lemma readOperations_Ok (opsList : list string) (i n : nat) (pr : Reader) ops :
  0 <= pos pr ->
  Parse.readOperations opsList i n pr = Ok ops ->
  Name <$> ops = take n (drop i opsList)
  /\ length ops = n
  /\ Index <$> ops = le <$> chunks 2 n (drop (Z.to_nat (pos pr)) (buf pr)).
Proof.
  revert i pr ops. induction n as [|n IH]; intros i pr ops Hp; cbn [Parse.readOperations].
  - intros [= <-]. done.
  - destruct (opsList !! i) as [name|] eqn:Hname; [| discriminate].
    intros H. ok_bind H as [idx pr1] Hr. ok_bind H as rest Hrest. injection H as <-.
    apply readUint_Ok in Hr as (-> & Hpos & Hbuf & _); [| lia | exact Hp].
    apply IH in Hrest as (Hn & Hl & Hi); [| lia].
    rewrite Hbuf, Hpos in Hi.
    cbn [fmap list_fmap length chunks Name Index].
    rewrite (drop_S _ _ _ Hname). cbn [take].
    change (Z.to_nat 2) with 2%nat.
    rewrite drop_drop.
    replace (Z.to_nat (pos pr) + 2)%nat with (Z.to_nat (pos pr + 2)) by lia.
    split_and!; [by f_equal | by f_equal | by f_equal].
Qed.

Lemma parseProfile_fields c opsList r prof sp r' :
  Parse.parseProfile c opsList r prof = Ok (sp, r') ->
  ProfileVersion sp = le (take 2 (drop 2 prof))
  /\ Name <$> Operations sp = take (Z.to_nat (OpCount c)) opsList
  /\ length (Operations sp) = Z.to_nat (OpCount c)
  /\ Index <$> Operations sp = le <$> chunks 2 (Z.to_nat (OpCount c)) (drop 4 prof).
Proof.
  unfold Parse.parseProfile. intros H.
  ok_bind H as [nameOffset pr1] Hn. ok_bind H as [version pr2] Hv.
  ok_bind H as ops Ho. ok_bind H as [str r1] Hi. injection H as <- <-.
  cbn [ProfileVersion Operations].
  apply readUint_Ok in Hn as (_ & Hp1 & Hb1 & _); [| lia | cbn [pos NewReader]; lia].
  cbn [pos buf NewReader] in Hp1, Hb1.
  apply readUint_Ok in Hv as (-> & Hp2 & Hb2 & _); [| lia | lia].
  apply readOperations_Ok in Ho as (Hnames & Hlen & Hidx); [| lia].
  rewrite Hb1, Hp1. rewrite Hb2, Hb1, Hp2, Hp1 in Hidx.
  rewrite drop_0 in Hnames. done.
Qed.

Lemma setValues_fields opNodes sp sp' :
  Parse.setValues opNodes sp = Ok sp' ->
  ProfileVersion sp' = ProfileVersion sp
  /\ Name <$> Operations sp' = Name <$> Operations sp
  /\ Index <$> Operations sp' = Index <$> Operations sp.
Proof.
  unfold Parse.setValues. intros H. ok_bind H as ops' Hops.
  injection H as <-. cbn [Operations ProfileVersion]. split; [reflexivity |].
  apply forEach_Forall2 in Hops.
  induction Hops as [|o o' os os' Hoo _ [IHn IHi]]; [done |].
  revert Hoo. unfold Parse.setValue.
  destruct (_ !! _); [| discriminate]. intros [= <-].
  cbn [fmap list_fmap Name Index]. by rewrite IHn, IHi.
Qed.

Lemma parseProfiles_fields c opsList r ds sps r' :
  Parse.parseProfiles c opsList r ds = Ok (sps, r') ->
  Forall2 (fun prof sp =>
    ProfileVersion sp = le (take 2 (drop 2 prof))
    /\ Name <$> Operations sp = take (Z.to_nat (OpCount c)) opsList
    /\ length (Operations sp) = Z.to_nat (OpCount c)
    /\ Index <$> Operations sp = le <$> chunks 2 (Z.to_nat (OpCount c)) (drop 4 prof))
    ds sps.
Proof.
  revert r sps. induction ds as [|d ds IH]; cbn [Parse.parseProfiles]; intros r sps H.
  - injection H as <- <-. constructor.
  - ok_bind H as [sp r1] Hd. ok_bind H as [rest r2] Hrest. injection H as <- <-.
    constructor; [by eapply parseProfile_fields | by eapply IH].
Qed.

Lemma profiles_fields (data : list byte) (opsList : list string) (sb : Sandbox) :
  ParseSandboxCollection data opsList = Ok sb ->
  let c := Parse.decodeCollection (take 12 data) in
  Forall2 (fun prof sp =>
    ProfileVersion sp = le (take 2 (drop 2 prof))
    /\ Name <$> Operations sp = take (Z.to_nat (OpCount c)) opsList
    /\ length (Operations sp) = Z.to_nat (OpCount c)
    /\ Index <$> Operations sp = le <$> chunks 2 (Z.to_nat (OpCount c)) (drop 4 prof))
    (recordsOf data) (Profiles sb).
Proof.
  intros H. apply parse_stages in H. unfold recordsOf. cbv zeta in *.
  destruct H as (Hlen & t & r2 & sps & r3 & opNodes & r4 & r5 & r6 & Ht & Hp & _ & Hv & _).
  pose proof (decodeCollection_range (take 12 data)) as Hrange. cbv zeta in Hrange.
  generalize dependent (Parse.decodeCollection (take 12 data)). intros c Ht Hp Hrange.
  destruct Hrange as (_ & _ & HO & HG & HP & HR & HM).
  assert (0 <= pos (mkReader data 12)) as Hp0 by (cbn [pos]; lia).
  pose proof (readTables_Ok c (mkReader data 12) t r2 Hp0 ltac:(lia) ltac:(lia)
                ltac:(lia) ltac:(lia) Ht) as Hlay.
  cbv zeta in Hlay. destruct Hlay as (_ & _ & _ & Hds & _ & _).
  cbn [pos buf] in Hds. rewrite <- Hds.
  apply parseProfiles_fields in Hp. apply forEach_Forall2 in Hv.
  revert Hp Hv. generalize (Parse.profileDatas t) (Profiles sb).
  clear. intros ds sps' Hp. revert sps'.
  induction Hp as [|prof sp ds sps Hx _ IH]; intros sps' Hv.
  - inversion Hv. constructor.
  - inversion Hv as [|? sp' ? sps1 Hsp Hrest]; subst.
    constructor; [| by apply IH].
    apply setValues_fields in Hsp as (Hver & Hnames & Hidx).
    destruct Hx as (Hxv & Hxn & Hxl & Hxi).
    rewrite Hver, Hnames, Hidx.
    split_and!; [exact Hxv | exact Hxn | | exact Hxi].
    rewrite <- Hxl, <- (length_fmap Name (Operations sp')), Hnames, length_fmap. reflexivity.
Qed.

(** ** Names and globals, offset by offset *)

Lemma Trim_item site data base off raw r1 :
  Parse.readItem site (NewReader data) (Parse.itemAddr base off) = Ok (raw, r1) ->
  trimmedItem site data base off (Trim raw).
Proof.
  intros Hitem. destruct (Trim_split raw) as (a & b & Hsplit & Ha & Hb & Hh & Hl).
  exists raw, r1, a, b. split_and!; [exact Hitem | reflexivity | exact Hsplit | exact Ha | exact Hb |].
  split; [exact Hh | exact Hl].
Qed.

(** C9, as the code has it: the name of a profile is the item at the offset
    in the first two bytes of its record, a global is the item at its offset
    in the table of globals; an item is the body read behind a [uint16]
    length at [baseAddr + 8 * offset], and [strings.Trim] cuts it: the body
    is the string between two runs of NUL bytes, the string neither starts
    nor ends with a NUL byte, and whatever lies between is kept. *)
Theorem names_are_trimmed data opsList sb :
  ParseSandboxCollection data opsList = Ok sb ->
  let base := Parse.baseAddr (Parse.decodeCollection (take 12 data)) in
  Forall2 (fun prof sp =>
      trimmedItem "failed to read profile name length" data base (le (take 2 prof))
        (ProfileName sp))
    (recordsOf data) (Profiles sb)
  /\ map_Forall (fun g s =>
      trimmedItem "failed to read global variable length" data base g s)
    (Globals sb).
Proof.
  intros H. apply parse_stages in H. unfold recordsOf. cbv zeta in *.
  destruct H as (Hlen & t & r2 & sps & r3 & opNodes & r4 & r5 & r6
                 & Ht & Hp & Hn & Hv & Hg & _).
  pose proof (decodeCollection_range (take 12 data)) as Hrange. cbv zeta in Hrange.
  generalize dependent (Parse.decodeCollection (take 12 data)).
  intros c Ht Hp Hn Hg Hrange.
  destruct Hrange as (_ & _ & HO & HG & HP & HR & HM).
  assert (0 <= pos (mkReader data 12)) as Hp0 by (cbn [pos]; lia).
  pose proof (readTables_Ok c (mkReader data 12) t r2 Hp0 ltac:(lia) ltac:(lia)
                ltac:(lia) ltac:(lia) Ht) as Hlay.
  cbv zeta in Hlay. destruct Hlay as (_ & _ & _ & Hds & _ & _).
  cbn [pos buf] in Hds. rewrite <- Hds.
  pose proof (readTables_buf _ _ _ _ Ht) as Hb2. cbn [buf] in Hb2.
  pose proof (parseProfiles_buf _ _ _ _ _ _ Hp) as Hb3.
  pose proof (loadOpNodes_buf _ _ _ _ _ Hn) as Hb4.
  assert (buf r4 = data) as Hd4 by congruence.
  split.
  - apply parseProfiles_names in Hp. rewrite Hb2 in Hp.
    apply forEach_Forall2 in Hv.
    revert Hp Hv. generalize (Parse.profileDatas t) (Profiles sb).
    clear. intros ds sps' Hp. revert sps'.
    induction Hp as [|prof sp ds sps Hx _ IH]; intros sps' Hv.
    + inversion Hv. constructor.
    + inversion Hv as [|? sp' ? sps1 Hsp Hrest]; subst.
      constructor; [| by apply IH].
      destruct Hx as (raw & rx & Hitem & Hname).
      apply setValues_Ok in Hsp as [Hsame _].
      rewrite Hsame, Hname. eapply Trim_item. exact Hitem.
  - eapply readGlobals_trimmed; [| | exact Hg].
    + intros g raw rx Hitem. rewrite Hd4 in Hitem.
      eapply Trim_item. exact Hitem.
    + apply map_Forall_empty.
Qed.

(** The rule on the blob [blobNames], whose one record starts with the
    offset 0: the name is the item at byte 24. *)
Lemma names_are_trimmed_witness :
  let sb := mkSandbox {[1 := bytes [67]]} ∅ ∅ [mkProfile (bytes [65; 0; 66]) 0 []] in
  ParseSandboxCollection Sample.blobNames [] = Ok sb
  /\ Forall2 (fun prof sp =>
        trimmedItem "failed to read profile name length" Sample.blobNames 24
          (le (take 2 prof)) (ProfileName sp))
      (recordsOf Sample.blobNames) (Profiles sb)
  /\ map_Forall (fun g s =>
        trimmedItem "failed to read global variable length" Sample.blobNames 24 g s)
      (Globals sb).
Proof.
  intros sb.
  assert (ParseSandboxCollection Sample.blobNames [] = Ok sb) as H
    by (vm_compute; reflexivity).
  split; [exact H |]. exact (names_are_trimmed Sample.blobNames [] sb H).
Defined.

(** On a blob whose profile name bytes are [A NUL B] and whose global
    bytes are [NUL C], the name keeps the NUL between [A] and [B], and the
    global loses its leading NUL, which cutting trailing NUL bytes alone
    would keep. *)
Lemma names_keep_inner_NUL :
  ParseSandboxCollection Sample.blobNames []
  = Ok (mkSandbox {[1 := bytes [67]]} ∅ ∅ [mkProfile (bytes [65; 0; 66]) 0 []])
  /\ bytes [65; 0; 66] !! 1%nat = Some x00
  /\ Parse.readItem "failed to read global variable length"
       (NewReader Sample.blobNames) 32
     = Ok (bytes [0; 67], mkReader Sample.blobNames 36)
  /\ TrimRight (bytes [0; 67]) = bytes [0; 67]
  /\ bytes [0; 67] <> bytes [67].
Proof. split_and!; [vm_compute; reflexivity .. | discriminate]. Qed.

(** Operation coverage: an accepted blob yields [ProfileCount] profiles, each
    with [OpCount] operations named by the first [OpCount] entries of the
    opcode list, in order; so with at least one profile the opcode list has
    at least [OpCount] entries. *)
Theorem operation_coverage (data : list byte) (opsList : list string) (sb : Sandbox) :
  ParseSandboxCollection data opsList = Ok sb ->
  let c := Parse.decodeCollection (take 12 data) in
  length (Profiles sb) = Z.to_nat (ProfileCount c)
  /\ Forall (fun sp =>
       length (Operations sp) = Z.to_nat (OpCount c)
       /\ Name <$> Operations sp = take (Z.to_nat (OpCount c)) opsList)
     (Profiles sb)
  /\ (0 < ProfileCount c -> OpCount c <= Z.of_nat (length opsList)).
Proof.
  intros H. pose proof (profiles_fields _ _ _ H) as Hall. cbv zeta in *.
  pose proof (decodeCollection_range (take 12 data)) as Hrange. cbv zeta in Hrange.
  assert (length (recordsOf data)
          = Z.to_nat (ProfileCount (Parse.decodeCollection (take 12 data)))) as Hn
    by (unfold recordsOf; apply chunks_length).
  generalize dependent (Parse.decodeCollection (take 12 data)). intros c Hall Hrange Hn.
  assert (Forall (fun sp =>
       length (Operations sp) = Z.to_nat (OpCount c)
       /\ Name <$> Operations sp = take (Z.to_nat (OpCount c)) opsList)
     (Profiles sb)) as Hcov.
  { clear Hn. induction Hall as [|prof sp ds sps (_ & Hxn & Hxl & _) _ IH];
      constructor; [done | exact IH]. }
  split; [| split; [exact Hcov |]].
  - rewrite <- Hn. symmetry. by eapply Forall2_length.
  - intros Hpos. apply Forall2_length in Hall. rewrite Hn in Hall.
    destruct (Profiles sb) as [|sp sps]; [cbn [length] in Hall; lia |].
    apply Forall_cons in Hcov as [[Hl Hnm] _].
    assert (length (take (Z.to_nat (OpCount c)) opsList) = Z.to_nat (OpCount c)) as Ht
      by (rewrite <- Hnm, length_fmap; exact Hl).
    rewrite length_take in Ht. lia.
Qed.

Lemma operation_coverage_witness :
  let sb := mkSandbox ∅ ∅ {[24 := 24]}
              [mkProfile ["A"%byte] 1 [mkOperation "default" 0 0]] in
  length (Profiles sb) = 1%nat
  /\ Forall (fun sp => length (Operations sp) = 1%nat
                       /\ Name <$> Operations sp = ["default"%string]) (Profiles sb).
Proof.
  intros sb.
  assert (ParseSandboxCollection Sample.blobOneNode ["default"%string] = Ok sb) as H
    by (vm_compute; reflexivity).
  destruct (operation_coverage _ _ _ H) as (Hlen & Hcov & _).
  split; [exact Hlen | exact Hcov].
Defined.

(** The version and the operation indices of the i-th profile are the
    [uint16] values at bytes 2 and 4, 6, ... of the i-th record. *)
Theorem profiles_decoded (data : list byte) (opsList : list string) (sb : Sandbox) :
  ParseSandboxCollection data opsList = Ok sb ->
  let c := Parse.decodeCollection (take 12 data) in
  Forall2 (fun prof sp =>
    ProfileVersion sp = le (take 2 (drop 2 prof))
    /\ Index <$> Operations sp = le <$> chunks 2 (Z.to_nat (OpCount c)) (drop 4 prof))
    (recordsOf data) (Profiles sb).
Proof.
  intros H. pose proof (profiles_fields _ _ _ H) as Hall. cbv zeta in *.
  induction Hall as [|prof sp ds sps (Hv & _ & _ & Hi) _ IH]; constructor; [done | exact IH].
Qed.

Lemma profiles_decoded_witness :
  let sb := mkSandbox ∅ ∅ {[24 := 24]}
              [mkProfile ["A"%byte] 1 [mkOperation "default" 0 0]] in
  Forall2 (fun prof sp =>
    ProfileVersion sp = le (take 2 (drop 2 prof))
    /\ Index <$> Operations sp = le <$> chunks 2 1 (drop 4 prof))
    [bytes [0; 0; 1; 0; 0; 0]] (Profiles sb).
Proof.
  intros sb.
  assert (ParseSandboxCollection Sample.blobOneNode ["default"%string] = Ok sb) as H
    by (vm_compute; reflexivity).
  exact (profiles_decoded _ _ _ H).
Defined.

(** ** The three maps *)

Lemma le_nonneg (bs : list byte) : 0 <= le bs.
Proof. apply le_bounds. Qed.

Lemma readOpNodes_map offs r acc m nodes m' r' :
  Forall (fun o => 0 <= o) offs ->
  Parse.readOpNodes offs r acc m = Ok (nodes, m', r') ->
  dom m' = dom m ∪ list_to_set offs
  /\ forall k v, m' !! k = Some v ->
       m !! k = Some v
       \/ (k + 8 <= Len r /\ v = le (take 8 (drop (Z.to_nat k) (buf r)))).
Proof.
  intros Hoffs. revert r acc m.
  induction Hoffs as [|o offs Ho _ IH]; intros r acc m; cbn [Parse.readOpNodes].
  - intros [= <- <- <-]. split; [by rewrite list_to_set_nil, union_empty_r_L | eauto].
  - intros H. ok_bind H as [v r1] Hr.
    apply readUint_Ok in Hr as (-> & _ & Hbuf & Hlen); [| lia | exact Ho].
    cbn [Seek pos buf] in Hbuf, Hlen. change (Z.to_nat 8) with 8%nat in H.
    apply IH in H as [Hdom Hval]. split.
    + rewrite Hdom, dom_insert_L, list_to_set_cons.
      by rewrite (comm_L (∪) {[o]} (dom m)), <- (assoc_L (∪)).
    + intros k v Hk. unfold Len in *. rewrite Hbuf in Hval.
      destruct (Hval k v Hk) as [Hm | Hnew]; [| by right].
      destruct (decide (o = k)) as [-> | Hne].
      * rewrite lookup_insert_eq in Hm. injection Hm as <-. right.
        cbn [Seek buf pos]. split; [exact Hlen | reflexivity].
      * rewrite lookup_insert_ne in Hm by exact Hne. by left.
Qed.

(** The op-node map of an accepted blob: its keys are the [uint16] entries
    of the table at [opNodeStart], and the value at key [k] is the [uint64]
    stored at byte [k] of the blob, which holds all 8 bytes of it. *)
Theorem opNodes_are_blob_words (data : list byte) (opsList : list string) (sb : Sandbox) :
  ParseSandboxCollection data opsList = Ok sb ->
  let c := Parse.decodeCollection (take 12 data) in
  dom (OpNodes sb)
  = list_to_set (le <$> chunks 2 (Z.to_nat (Parse.opNodeCount c))
                   (drop (Z.to_nat (Parse.opNodeStart (Parse.opNodeStartTmp c))) data))
  /\ forall k v, OpNodes sb !! k = Some v ->
       k + 8 <= Z.of_nat (length data)
       /\ v = le (take 8 (drop (Z.to_nat k) data)).
Proof.
  intros H. apply parse_stages in H. cbv zeta in *.
  destruct H as (Hlen & t & r2 & sps & r3 & opNodes & r4 & r5 & r6 & Ht & Hp & Hn & _).
  apply readTables_buf in Ht. apply parseProfiles_buf in Hp. cbn [buf] in Ht.
  assert (buf r3 = data) as Hb3 by congruence.
  generalize dependent (Parse.decodeCollection (take 12 data)). intros c Hn.
  apply loadOpNodes_Ok in Hn as (offs & ro & Ho & Hn).
  assert (0 <= Parse.opNodeStart (Parse.opNodeStartTmp c)) as Hs.
  { unfold Parse.opNodeStart, U.u32, U.wrap. apply Z.mod_pos_bound. lia. }
  assert (0 <= Parse.opNodeCount c) as Hc.
  { unfold Parse.opNodeCount, U.u32, U.wrap. apply Z.div_pos; [| lia].
    apply Z.mod_pos_bound. lia. }
  pose proof (readUints_buf _ _ _ _ _ Ho) as Hbo. cbn [Seek buf] in Hbo.
  apply readUints_Ok in Ho as [-> _]; [| exact Hc | exact Hs].
  cbn [Seek pos buf] in Hn. rewrite Hb3 in Hn.
  apply readOpNodes_map in Hn as [Hdom Hval].
  - split; [by rewrite Hdom, dom_empty_L, union_empty_l_L |].
    intros k v Hk. destruct (Hval k v Hk) as [Hm | Hnew]; [by rewrite lookup_empty in Hm |].
    unfold Len in Hnew. rewrite Hbo, Hb3 in Hnew. exact Hnew.
  - apply Forall_fmap, Forall_forall. intros x _. apply le_nonneg.
Qed.

Lemma opNodes_are_blob_words_witness :
  let sb := mkSandbox ∅ ∅ {[24 := 24]}
              [mkProfile ["A"%byte] 1 [mkOperation "default" 0 0]] in
  dom (OpNodes sb) = list_to_set [24]
  /\ (24 + 8 <= 35 /\ 24 = le (take 8 (drop 24 Sample.blobOneNode))).
Proof.
  intros sb.
  assert (ParseSandboxCollection Sample.blobOneNode ["default"%string] = Ok sb) as H
    by (vm_compute; reflexivity).
  destruct (opNodes_are_blob_words _ _ _ H) as [Hdom Hval].
  split; [exact Hdom |]. apply (Hval 24 24). reflexivity.
Defined.

Lemma Read_length r n bs r' :
  0 <= n -> Read r n = Ok (bs, r') -> length bs = Z.to_nat n.
Proof.
  intros Hn. unfold Read. destruct (_ <=? _); [discriminate |].
  intros [= <- <-]. unfold zeros.
  rewrite length_app, length_replicate.
  assert (length (take (Z.to_nat n) (drop (Z.to_nat (pos r)) (buf r))) <= Z.to_nat n)%nat
    by (rewrite length_take; lia).
  lia.
Qed.

Lemma readItem_length site r addr bs r' :
  0 <= addr -> Parse.readItem site r addr = Ok (bs, r') ->
  length bs = Z.to_nat (le (take 2 (drop (Z.to_nat addr) (buf r)))).
Proof.
  intros Ha. unfold Parse.readItem. intros H. ok_bind H as [len r1] Hl.
  apply readUint_Ok in Hl as (-> & _ & _ & _); [| lia | exact Ha].
  apply Read_length in H; [exact H | apply le_nonneg].
Qed.

Lemma readRegexes_items base offs r m m' r' :
  Parse.readRegexes base offs r m = Ok (m', r') ->
  forall k bs, m' !! k = Some bs ->
    m !! k = Some bs
    \/ storedItem "failed to read regex table offset" (buf r) base k bs.
Proof.
  revert r m. induction offs as [|o offs IH]; cbn [Parse.readRegexes]; intros r m H.
  - injection H as <- <-. eauto.
  - ok_bind H as [data r1] Hi. pose proof (readItem_buf _ _ _ _ _ Hi) as Hb.
    intros k bs Hk. destruct (IH _ _ H k bs Hk) as [Hm | Hnew].
    + destruct (decide (o = k)) as [-> | Hne].
      * rewrite lookup_insert_eq in Hm. injection Hm as <-. right. by exists r1.
      * rewrite lookup_insert_ne in Hm by exact Hne. by left.
    + right. by rewrite <- Hb.
Qed.

Lemma readGlobals_dom base offs r m m' r' :
  Parse.readGlobals base offs r m = Ok (m', r') ->
  dom m' = dom m ∪ list_to_set offs.
Proof.
  revert r m. induction offs as [|o offs IH]; cbn [Parse.readGlobals]; intros r m H.
  - injection H as <- <-. by rewrite list_to_set_nil, union_empty_r_L.
  - ok_bind H as [data r1] Hi. apply IH in H.
    rewrite H, dom_insert_L, list_to_set_cons.
    by rewrite (comm_L (∪) {[o]} (dom m)), <- (assoc_L (∪)).
Qed.

(** A regex of an accepted blob is the item stored at
    [baseAddr + 8 * key], kept as read (nothing is trimmed), and it has the
    length its length field declares. *)
Theorem regexes_are_stored_items (data : list byte) (opsList : list string) (sb : Sandbox) :
  ParseSandboxCollection data opsList = Ok sb ->
  let base := Parse.baseAddr (Parse.decodeCollection (take 12 data)) in
  map_Forall (fun k bs =>
    storedItem "failed to read regex table offset" data base k bs
    /\ length bs
       = Z.to_nat (le (take 2 (drop (Z.to_nat (Parse.itemAddr base k)) data))))
    (Regexes sb).
Proof.
  intros H. apply parse_stages in H. cbv zeta in *.
  destruct H as (Hlen & t & r2 & sps & r3 & opNodes & r4 & r5 & r6
                 & Ht & Hp & Hn & _ & Hg & Hr).
  apply readTables_buf in Ht. apply parseProfiles_buf in Hp.
  apply loadOpNodes_buf in Hn. apply readGlobals_buf in Hg. cbn [buf] in Ht.
  assert (buf r5 = data) as Hb5 by congruence.
  generalize dependent (Parse.baseAddr (Parse.decodeCollection (take 12 data))).
  intros base Hr.
  intros k bs Hk. destruct (readRegexes_items _ _ _ _ _ _ Hr k bs Hk) as [Hm | Hst];
    [by rewrite lookup_empty in Hm |].
  rewrite Hb5 in Hst. split; [exact Hst |].
  destruct Hst as [r1 Hitem]. apply readItem_length in Hitem; [exact Hitem |].
  unfold Parse.itemAddr, U.u32, U.wrap. apply Z.mod_pos_bound. lia.
Qed.

Lemma regexes_are_stored_items_witness :
  let sb := mkSandbox ∅ {[1 := [zbyte 171]]} ∅ [] in
  map_Forall (fun k bs =>
    storedItem "failed to read regex table offset" Sample.blobOneRegex 16 k bs
    /\ length bs
       = Z.to_nat (le (take 2 (drop (Z.to_nat (Parse.itemAddr 16 k)) Sample.blobOneRegex))))
    (Regexes sb).
Proof.
  intros sb.
  assert (ParseSandboxCollection Sample.blobOneRegex [] = Ok sb) as H
    by (vm_compute; reflexivity).
  exact (regexes_are_stored_items _ _ _ H).
Defined.

(** The keys of [Globals] are the [uint16] entries of the global offset
    table, which follows the regex offset table. *)
Theorem globals_keys (data : list byte) (opsList : list string) (sb : Sandbox) :
  ParseSandboxCollection data opsList = Ok sb ->
  let c := Parse.decodeCollection (take 12 data) in
  dom (Globals sb)
  = list_to_set (le <$> chunks 2 (Z.to_nat (GlobalVarCount c))
                   (drop (Z.to_nat (12 + 2 * RegexItemCount c)) data)).
Proof.
  intros H. apply parse_stages in H. cbv zeta in *.
  destruct H as (Hlen & t & r2 & sps & r3 & opNodes & r4 & r5 & r6
                 & Ht & _ & _ & _ & Hg & _).
  pose proof (decodeCollection_range (take 12 data)) as Hrange. cbv zeta in Hrange.
  generalize dependent (Parse.decodeCollection (take 12 data)). intros c Ht Hg Hrange.
  destruct Hrange as (_ & _ & HO & HG & HP & HR & HM).
  assert (0 <= pos (mkReader data 12)) as Hp0 by (cbn [pos]; lia).
  pose proof (readTables_Ok c (mkReader data 12) t r2 Hp0 ltac:(lia) ltac:(lia)
                ltac:(lia) ltac:(lia) Ht) as Hlay.
  cbv zeta in Hlay. destruct Hlay as (_ & Hgl & _).
  cbn [pos buf] in Hgl. apply readGlobals_dom in Hg.
  by rewrite Hg, dom_empty_L, union_empty_l_L, Hgl.
Qed.

Lemma globals_keys_witness :
  let sb := mkSandbox {[1 := bytes [67]]} ∅ ∅ [mkProfile (bytes [65; 0; 66]) 0 []] in
  dom (Globals sb) = list_to_set [1].
Proof.
  intros sb.
  assert (ParseSandboxCollection Sample.blobNames [] = Ok sb) as H
    by (vm_compute; reflexivity).
  exact (globals_keys _ _ _ H).
Defined.

(** ** Reads that must succeed, and the panic on a short opcode list *)

Lemma ReadFull_enough r n :
  0 <= n -> 0 <= pos r -> pos r + n <= Len r ->
  ReadFull r n = Ok (take (Z.to_nat n) (drop (Z.to_nat (pos r)) (buf r)),
                     mkReader (buf r) (pos r + n)).
Proof.
  intros Hn Hp Hl. unfold ReadFull.
  destruct (Z.leb_spec n 0) as [H0 | H0].
  - assert (n = 0) as -> by lia. change (Z.to_nat 0) with 0%nat.
    rewrite take_0, Z.add_0_r. by destruct r.
  - destruct (Z.leb_spec (Len r) (pos r)); [lia |].
    destruct (Z.ltb_spec (Len r - pos r) n); [lia | reflexivity].
Qed.

Lemma readUints_enough w n r :
  0 <= n -> 0 <= pos r -> pos r + Z.of_nat w * n <= Len r ->
  exists v, readUints w n r = Ok (v, mkReader (buf r) (pos r + Z.of_nat w * n)).
Proof.
  intros Hn Hp Hl. unfold readUints.
  rewrite ReadFull_enough by lia. rewrite bind_ret. eauto.
Qed.

Lemma readProfileDatas_enough n size r :
  0 <= size -> 0 <= pos r -> pos r + size * Z.of_nat n <= Len r ->
  exists ds, Parse.readProfileDatas n size r
             = Ok (ds, mkReader (buf r) (pos r + size * Z.of_nat n)).
Proof.
  intros Hs. revert r. induction n as [|n IH]; intros r Hp Hl; cbn [Parse.readProfileDatas].
  - rewrite Z.mul_0_r, Z.add_0_r. destruct r. eauto.
  - rewrite ReadFull_enough by lia. cbn [wrapErr]. rewrite bind_ret.
    destruct (IH (mkReader (buf r) (pos r + size))) as [ds Hds];
      [cbn [pos]; lia | unfold Len in *; cbn [pos buf]; lia |].
    rewrite Hds, bind_ret. cbn [buf pos].
    replace (pos r + size + size * Z.of_nat n) with (pos r + size * Z.of_nat (S n)) by lia.
    eauto.
Qed.

(** The operation loop on a record that holds all its indices, with an
    opcode list that ends before the loop does: it panics at the first index
    the list lacks. *)
Lemma readOperations_panics (opsList : list string) (n i : nat) (pr : Reader) :
  0 <= pos pr -> (i <= length opsList)%nat -> (length opsList < i + n)%nat ->
  pos pr + 2 * Z.of_nat (length opsList - i) <= Len pr ->
  Parse.readOperations opsList i n pr = Panic.
Proof.
  revert i pr. induction n as [|n IH]; intros i pr Hp Hi Hn Hl; [lia |].
  cbn [Parse.readOperations].
  destruct (opsList !! i) as [name|] eqn:Hname; [| reflexivity].
  apply lookup_lt_Some in Hname.
  unfold readUint. rewrite ReadFull_enough by lia.
  rewrite bind_ret. cbn [wrapErr]. rewrite bind_ret.
  rewrite IH; [reflexivity | cbn [pos]; lia | lia | lia |].
  unfold Len in *. cbn [pos buf]. lia.
Qed.

Lemma parseProfile_panics c (opsList : list string) r (prof : list byte) :
  0 <= OpCount c ->
  Z.of_nat (length prof) = 2 * (OpCount c + 2) ->
  Z.of_nat (length opsList) < OpCount c ->
  Parse.parseProfile c opsList r prof = Panic.
Proof.
  intros HO Hprof Hops. unfold Parse.parseProfile, readUint.
  rewrite ReadFull_enough;
    [| lia | cbn [pos NewReader]; lia | unfold Len; cbn [pos buf NewReader]; lia].
  rewrite bind_ret. cbn [wrapErr]. rewrite bind_ret. cbn [pos buf NewReader].
  rewrite ReadFull_enough;
    [| lia | cbn [pos]; lia | unfold Len; cbn [pos buf]; lia].
  rewrite bind_ret. cbn [wrapErr]. rewrite bind_ret. cbn [pos buf].
  rewrite readOperations_panics; [reflexivity | cbn [pos]; lia | lia | lia |].
  unfold Len. cbn [pos buf]. lia.
Qed.

(** With at least one profile in a blob that holds its tables and records,
    an opcode list shorter than [OpCount] makes the parser panic (index out
    of range in [opsList[i]]), whatever follows in the blob. *)
Theorem short_opsList_panics (data : list byte) (opsList : list string) :
  let c := Parse.decodeCollection (take 12 data) in
  12 + 2 * RegexItemCount c + 2 * GlobalVarCount c + 2 * MsgItemCount c
    + Parse.profileSize c * ProfileCount c <= Z.of_nat (length data) ->
  0 < ProfileCount c -> OpCount c <= 253 ->
  Z.of_nat (length opsList) < OpCount c ->
  ParseSandboxCollection data opsList = Panic.
Proof.
  cbv zeta. intros Hlen HPC HOC Hops.
  pose proof (decodeCollection_range (take 12 data)) as Hrange. cbv zeta in Hrange.
  destruct Hrange as (_ & _ & HO & HG & HP & HR & HM).
  assert (Parse.profileSize (Parse.decodeCollection (take 12 data))
          = 2 * (OpCount (Parse.decodeCollection (take 12 data)) + 2)) as Hps
    by (apply profileSize_small; lia).
  unfold ParseSandboxCollection, Parse.readCollection.
  rewrite ReadFull_enough;
    [| done | cbn [pos NewReader]; lia
     | unfold Len; cbn [pos buf NewReader]; change Parse.collectionSize with 12; nia].
  rewrite bind_ret. cbn [wrapErr]. rewrite bind_ret.
  cbn [pos buf NewReader]. change (Z.to_nat 0) with 0%nat. rewrite drop_0.
  change (Z.to_nat Parse.collectionSize) with 12%nat.
  change (0 + Parse.collectionSize) with 12.
  generalize dependent (Parse.decodeCollection (take 12 data)). intros c.
  intros Hlen HPC HOC Hops HO HG HP HR HM Hps.
  unfold Parse.readTables.
  destruct (readUints_enough 2 (RegexItemCount c) (mkReader data 12)) as [regex ->];
    [lia | cbn [pos]; lia | unfold Len; cbn [pos buf]; nia |].
  cbn [wrapErr]. rewrite bind_ret. cbn [pos buf].
  destruct (readUints_enough 2 (GlobalVarCount c)
              (mkReader data (12 + Z.of_nat 2 * RegexItemCount c))) as [gl ->];
    [lia | cbn [pos]; lia | unfold Len; cbn [pos buf]; nia |].
  cbn [wrapErr]. rewrite bind_ret. cbn [pos buf].
  destruct (readUints_enough 2 (MsgItemCount c)
              (mkReader data (12 + Z.of_nat 2 * RegexItemCount c
                              + Z.of_nat 2 * GlobalVarCount c))) as [ms ->];
    [lia | cbn [pos]; lia | unfold Len; cbn [pos buf]; nia |].
  cbn [wrapErr]. rewrite bind_ret. cbn [pos buf].
  assert (exists k, Z.to_nat (ProfileCount c) = S k) as [k Hk]
    by (exists (Z.to_nat (ProfileCount c) - 1)%nat; lia).
  rewrite Hk. cbn [Parse.readProfileDatas].
  rewrite ReadFull_enough;
    [| lia | cbn [pos]; lia | unfold Len; cbn [pos buf]; nia].
  cbn [wrapErr]. rewrite bind_ret. cbn [pos buf].
  destruct (readProfileDatas_enough k (Parse.profileSize c)
              (mkReader data (12 + Z.of_nat 2 * RegexItemCount c
                              + Z.of_nat 2 * GlobalVarCount c
                              + Z.of_nat 2 * MsgItemCount c + Parse.profileSize c)))
    as [ds ->]; [lia | cbn [pos]; lia | unfold Len; cbn [pos buf]; nia |].
  rewrite !bind_ret. cbn [Parse.profileDatas Parse.parseProfiles].
  set (prof := take (Z.to_nat (Parse.profileSize c)) _).
  assert (length prof = Z.to_nat (Parse.profileSize c)) as Hprof.
  { unfold prof. rewrite length_take, length_drop. nia. }
  rewrite (parseProfile_panics c opsList _ prof); [reflexivity | lia | lia | lia].
Qed.

Lemma short_opsList_panics_witness :
  ParseSandboxCollection Sample.blobOneNode [] = Panic.
Proof. apply (short_opsList_panics Sample.blobOneNode []); vm_compute; done. Defined.

(** * Further properties of the opcode-name extractor *)

(** What stands in the way of [make([]uint64, n)]. *)
Lemma makeslice_cases (maxAlloc : N) (n : Z) :
  (makeslice maxAlloc 8 n = Ok tt /\ n < 2 ^ 61 /\ 8 * n <= Z.of_N maxAlloc)
  \/ (makeslice maxAlloc 8 n = Panic
      /\ (2 ^ 61 <= n \/ Z.of_N maxAlloc < 8 * n)).
Proof.
  unfold makeslice.
  destruct (Z.leb_spec (2 ^ 63) n), (Z.leb_spec (2 ^ 64) (8 * n)),
    (Z.ltb_spec (Z.of_N maxAlloc) (8 * n)); cbn [orb];
    first [left; split; [reflexivity | lia] | right; split; [reflexivity | lia]].
Qed.

Section OptsMore.

Variable tagPtrMask : Z.
Variable maxAlloc : N.
Variable m : MachoFile.

(** What the scan collects comes from the array, in order: the new names
    are the strings read at a sublist of the nonzero pointers, and every
    pointer of that sublist but the last has the tag [0x17]. *)
Lemma optsLoop_provenance (st : optsState) (ptrs : list Z) :
  exists ps new,
    bcOpts (optsLoop tagPtrMask m st ptrs) = bcOpts st ++ new
    /\ sublist ps ptrs
    /\ Forall2 (fun p s => p <> 0 /\ GetCString m (Z.lor p tagPtrMask) = Some s) ps new
    /\ Forall (fun p => getTag p = 0x17) (take (length ps - 1) ps).
Proof.
  revert st. induction ptrs as [|ptr rest IH]; intros st.
  { exists [], []. cbn [optsLoop]. rewrite app_nil_r.
    split_and!; [reflexivity | constructor | constructor | constructor]. }
  cbn [optsLoop]. unfold optsBody.
  assert (forall st1, bcOpts st1 = bcOpts st ->
    exists ps new, bcOpts (optsLoop tagPtrMask m st1 rest) = bcOpts st ++ new
      /\ sublist ps (ptr :: rest)
      /\ Forall2 (fun p s => p <> 0 /\ GetCString m (Z.lor p tagPtrMask) = Some s) ps new
      /\ Forall (fun p => getTag p = 0x17) (take (length ps - 1) ps)) as Hskip.
  { intros st1 Hst1. destruct (IH st1) as (ps & new & Hb & Hsub & Hall & Htag).
    exists ps, new. rewrite Hb, Hst1. split_and!; [reflexivity | by constructor | done..]. }
  assert (exists ps new, bcOpts st = bcOpts st ++ new
      /\ sublist ps (ptr :: rest)
      /\ Forall2 (fun p s => p <> 0 /\ GetCString m (Z.lor p tagPtrMask) = Some s) ps new
      /\ Forall (fun p => getTag p = 0x17) (take (length ps - 1) ps)) as Hstop.
  { exists [], []. rewrite app_nil_r.
    split_and!; [reflexivity | apply sublist_nil_l | constructor | constructor]. }
  destruct (Z.eqb_spec ptr 0) as [Hz | Hnz]; [by apply Hskip |].
  destruct (GetCString m (Z.lor ptr tagPtrMask)) as [str|] eqn:Hstr;
    [| destruct (found st); [exact Hstop | by apply Hskip]].
  destruct (if String.eqb str "default" then true else found st) eqn:Hseen;
    [| by apply Hskip].
  destruct (Z.eqb_spec (getTag ptr) 23) as [Ht | Ht]; cbn [negb].
  - destruct (IH (mkOpts true (bcOpts st ++ [str]))) as (ps & new & Hb & Hsub & Hall & Htag).
    exists (ptr :: ps), (str :: new). cbn [bcOpts] in Hb. rewrite Hb, <- app_assoc.
    split_and!; [reflexivity | by constructor | by constructor |].
    destruct ps as [|p ps]; [constructor |].
    cbn [length]. replace (S (S (length ps)) - 1)%nat with (S (length ps)) by lia.
    cbn [take]. constructor; [exact Ht |].
    replace (length ps) with (length (p :: ps) - 1)%nat by (cbn [length]; lia).
    exact Htag.
  - exists [ptr], [str]. cbn [bcOpts].
    split_and!; [reflexivity | | by repeat constructor | constructor].
    constructor. apply sublist_nil_l.
Qed.

(** The names [GetSandboxOpts] returns are strings of the pointer array,
    in array order. *)
Theorem opts_come_from_array (dconst : MachoSection) (data : list byte) (l : list string) :
  FindSection m "__DATA_CONST" "__const" = Some dconst ->
  Data dconst = Some data ->
  GetSandboxOpts tagPtrMask maxAlloc m = Ok l ->
  exists ps,
    sublist ps (le <$> chunks 8 (Z.to_nat (Size dconst / 8)) data)
    /\ Forall2 (fun p s => p <> 0 /\ GetCString m (Z.lor p tagPtrMask) = Some s) ps l
    /\ Forall (fun p => getTag p = 0x17) (take (length ps - 1) ps).
Proof.
  intros Hsec Hdata. unfold GetSandboxOpts. rewrite Hsec, Hdata.
  cbn [service]. rewrite bind_ret. intros H.
  ok_bind H as u Hu. ok_bind H as [ptrs r] Hr. injection H as <-.
  assert (ptrs = le <$> chunks 8 (Z.to_nat (Size dconst / 8)) data) as ->.
  { revert Hr. unfold readUints. intros Hr. ok_bind Hr as [bs r1] Hf.
    injection Hr as <- <-.
    destruct (Z.leb_spec (Z.of_nat 8 * (Size dconst / 8)) 0) as [H0 | H0].
    - replace (Z.to_nat (Size dconst / 8)) with 0%nat by lia. reflexivity.
    - apply ReadFull_Ok in Hf as [_ Hf].
      destruct (Hf H0) as (_ & _ & ->). cbn [pos buf NewReader].
      change (Z.to_nat 0) with 0%nat. rewrite drop_0.
      replace (Z.to_nat (Z.of_nat 8 * (Size dconst / 8)))
        with (8 * Z.to_nat (Size dconst / 8))%nat by lia.
      by rewrite chunks_take. }
  destruct (optsLoop_provenance (mkOpts false [])
              (le <$> chunks 8 (Z.to_nat (Size dconst / 8)) data))
    as (ps & new & Hb & Hsub & Hall & Htag).
  cbn [bcOpts app] in Hb. rewrite Hb. eauto.
Qed.

(** Where the string ["default"] cannot be read, nothing is collected. *)
Theorem opts_empty_without_default (l : list string) :
  (forall addr, GetCString m addr <> Some "default"%string) ->
  GetSandboxOpts tagPtrMask maxAlloc m = Ok l -> l = [].
Proof.
  intros Hno. unfold GetSandboxOpts.
  destruct (FindSection m _ _) as [dconst|]; [| by intros [= <-]].
  intros H. ok_bind H as data Hd. ok_bind H as u Hu. ok_bind H as [ptrs r] Hr.
  injection H as <-.
  clear Hr. induction ptrs as [|ptr rest IH]; [reflexivity |].
  cbn [optsLoop]. unfold optsBody. cbn [found].
  destruct (ptr =? 0); [exact IH |].
  destruct (GetCString m (Z.lor ptr tagPtrMask)) as [str|] eqn:Hstr; [| exact IH].
  destruct (String.eqb_spec str "default") as [-> | Hne]; [by apply Hno in Hstr |].
  exact IH.
Qed.

(** The errors and the panic of [GetSandboxOpts].  It returns an error
    when the section is there and its data cannot be had, or the array of
    [Size / 8] pointers can be made and the data is shorter than it.  It
    panics when the section and its data are there and the array cannot be
    made: its size in bytes overflows or exceeds the bound of the
    allocator. *)
Theorem opts_errors (e : error) :
  (GetSandboxOpts tagPtrMask maxAlloc m = Err e <->
   exists dconst, FindSection m "__DATA_CONST" "__const" = Some dconst
     /\ ((Data dconst = None /\ e = ServiceError "Data")
         \/ exists data, Data dconst = Some data
              /\ Size dconst / 8 < 2 ^ 61
              /\ 8 * (Size dconst / 8) <= Z.of_N maxAlloc
              /\ 0 < Size dconst / 8
              /\ Z.of_nat (length data) < 8 * (Size dconst / 8)
              /\ e = if decide (data = []) then EOF else ErrUnexpectedEOF))
  /\ (GetSandboxOpts tagPtrMask maxAlloc m = Panic <->
      exists dconst data, FindSection m "__DATA_CONST" "__const" = Some dconst
        /\ Data dconst = Some data
        /\ (2 ^ 61 <= Size dconst / 8 \/ Z.of_N maxAlloc < 8 * (Size dconst / 8))).
Proof.
  unfold GetSandboxOpts.
  destruct (FindSection m "__DATA_CONST" "__const") as [dconst|] eqn:HS.
  2:{ split; (split; [discriminate |]).
      - intros (d & Hd & _); discriminate.
      - intros (d & data & Hd & _); discriminate. }
  assert (forall P : MachoSection -> Prop,
            (exists d, Some dconst = Some d /\ P d) <-> P dconst) as Hex.
  { intros P. split; [intros (d & [= <-] & Hp); exact Hp | eauto]. }
  assert (forall P : MachoSection -> list byte -> Prop,
            (exists d data, Some dconst = Some d /\ P d data)
            <-> exists data, P dconst data) as Hex2.
  { intros P. split; [intros (d & data & [= <-] & Hp); eauto | intros [data Hp]; eauto]. }
  rewrite Hex, Hex2. clear Hex Hex2.
  destruct (Data dconst) as [data|] eqn:HD; cbn [service].
  2:{ split; split.
      - intros [= <-]. by left.
      - intros [[_ ->] | (data & Hd & _)]; [reflexivity | discriminate].
      - discriminate.
      - intros (data & Hd & _). discriminate. }
  rewrite bind_ret.
  destruct (makeslice_cases maxAlloc (Size dconst / 8)) as [(-> & Hn & Hmax) | (-> & Hbad)].
  2:{ split; split.
      - discriminate.
      - intros [[Hd _] | (data' & _ & Hn & Hmax & _)]; [discriminate | lia].
      - intros _. exists data. split; [reflexivity | exact Hbad].
      - reflexivity. }
  rewrite bind_ret.
  assert (~ exists data0 : list byte, Some data = Some data0
            /\ (2 ^ 61 <= Size dconst / 8 \/ Z.of_N maxAlloc < 8 * (Size dconst / 8)))
    as Hnp by (intros (data' & _ & Hbad); lia).
  unfold readUints, ReadFull, Len. cbn [pos buf NewReader].
  change (Z.of_nat 8) with 8.
  assert ((data = [] -> length data = 0%nat) /\ (data <> [] -> length data <> 0%nat)) as [Hl0 Hl1]
    by (destruct data; split; cbn [length]; congruence).
  destruct (Z.leb_spec (8 * (Size dconst / 8)) 0) as [H0 | H0].
  { rewrite !bind_ret. split; [| split; [discriminate | intros Hx; by destruct Hnp]].
    split; [discriminate |].
    intros [[Hd _] | (data' & [= <-] & _ & _ & Hpos & _)]; [discriminate | lia]. }
  destruct (Z.leb_spec (Z.of_nat (length data)) 0) as [H1 | H1].
  { split; [| split; [discriminate | intros Hx; by destruct Hnp]].
    destruct (decide (data = [])) as [He | Hne];
      [| apply Hl1 in Hne; lia].
    split.
    - intros [= <-]. right. exists data. rewrite decide_True by exact He.
      split_and!; [reflexivity | lia | lia | lia | lia | reflexivity].
    - intros [[Hd _] | (data' & [= <-] & _ & _ & _ & _ & ->)]; [discriminate |].
      by rewrite decide_True. }
  destruct (Z.ltb_spec (Z.of_nat (length data) - 0) (8 * (Size dconst / 8))) as [H2 | H2].
  { split; [| split; [discriminate | intros Hx; by destruct Hnp]].
    assert (data <> []) as Hne by (intros He; apply Hl0 in He; lia).
    split.
    - intros [= <-]. right. exists data. rewrite decide_False by exact Hne.
      split_and!; [reflexivity | lia | lia | lia | lia | reflexivity].
    - intros [[Hd _] | (data' & [= <-] & _ & _ & _ & _ & ->)]; [discriminate |].
      by rewrite decide_False. }
  rewrite !bind_ret. split; [| split; [discriminate | intros Hx; by destruct Hnp]].
  split; [discriminate |].
  intros [[Hd _] | (data' & [= <-] & _ & _ & _ & Hlt & _)]; [discriminate | lia].
Qed.

End OptsMore.

(** The provenance rule on the sample array. *)
Lemma opts_come_from_array_witness :
  exists ps,
    sublist ps Sample.optsPtrs
    /\ Forall2 (fun p s => p <> 0
                 /\ GetCString Sample.optsFile (Z.lor p Sample.tagPtrMask) = Some s)
         ps ["default"; "file*"; "mach*"]%string
    /\ Forall (fun p => getTag p = 0x17) (take (length ps - 1) ps).
Proof.
  assert (le <$> chunks 8 (Z.to_nat (Size Sample.optsSection / 8))
                   (mjoin (Sample.u64le <$> Sample.optsPtrs)) = Sample.optsPtrs) as Heq
    by (vm_compute; reflexivity).
  rewrite <- Heq.
  apply (opts_come_from_array Sample.tagPtrMask Sample.maxAlloc Sample.optsFile
           Sample.optsSection
           (mjoin (Sample.u64le <$> Sample.optsPtrs))
           ["default"; "file*"; "mach*"]%string);
    [reflexivity | reflexivity | vm_compute; reflexivity].
Defined.

(** The sample array in a file whose only string is ["file*"]. *)
Lemma opts_empty_without_default_witness :
  GetSandboxOpts Sample.tagPtrMask Sample.maxAlloc Sample.noDefaultFile = Ok []
  /\ ([] : list string) = [].
Proof.
  assert (GetSandboxOpts Sample.tagPtrMask Sample.maxAlloc Sample.noDefaultFile = Ok [])
    as H by (vm_compute; reflexivity).
  split; [exact H |].
  apply (opts_empty_without_default Sample.tagPtrMask Sample.maxAlloc
           Sample.noDefaultFile []);
    [| exact H].
  intros addr. cbn [GetCString Sample.noDefaultFile].
  destruct (addr =? _); discriminate.
Defined.

(** A section whose data cannot be had, and a section that declares
    [2^64 - 8] bytes: the array of [2^61 - 1] pointers is beyond the
    allocator's bound. *)
Lemma opts_errors_witness :
  GetSandboxOpts Sample.tagPtrMask Sample.maxAlloc Sample.noDataFile
  = Err (ServiceError "Data")
  /\ GetSandboxOpts Sample.tagPtrMask Sample.maxAlloc Sample.hugeFile = Panic.
Proof.
  split.
  - apply (opts_errors Sample.tagPtrMask Sample.maxAlloc Sample.noDataFile
             (ServiceError "Data")).
    exists (mkSection None 16). split; [reflexivity | left; split; reflexivity].
  - apply (opts_errors Sample.tagPtrMask Sample.maxAlloc Sample.hugeFile EOF).
    exists (mkSection (Some []) (2 ^ 64 - 8)), [].
    split_and!; [reflexivity | reflexivity | right; vm_compute; reflexivity].
Defined.

(** * Tagged pointers *)

Lemma tagMask_bits (i : Z) :
  0 <= i -> Z.testbit (Z.shiftl 0xffff 48) i = (48 <=? i) && (i <? 64).
Proof.
  intros Hi. change 0xffff with (Z.ones 16).
  rewrite Z.shiftl_spec by exact Hi.
  destruct (Z.leb_spec 48 i) as [H1 | H1]; cbn [andb].
  - destruct (Z.ltb_spec i 64) as [H2 | H2].
    + apply Z.ones_spec_low. lia.
    + apply Z.ones_spec_high. lia.
  - apply Z.testbit_neg_r. lia.
Qed.

Lemma testbit_u64_high (p i : Z) : 0 <= p < 2 ^ 64 -> 64 <= i -> Z.testbit p i = false.
Proof.
  intros Hp Hi. destruct (Z.eq_dec p 0) as [-> | Hnz]; [apply Z.bits_0 |].
  apply Z.bits_above_log2; [lia |].
  assert (Z.log2 p < 64) by (apply Z.log2_lt_pow2; lia). lia.
Qed.

(** [unTag] on a 64-bit pointer: it is the pointer with its tag bits all
    set (so [ptr | 0xffff000000000000]), its tag is [0xffff], the low 48 bits
    are those of the pointer, and a second [unTag] changes nothing. *)
Theorem unTag_sets_the_tag (p : Z) :
  0 <= p < 2 ^ 64 ->
  unTag p = Z.lor p (Z.shiftl 0xffff 48)
  /\ getTag (unTag p) = 0xffff
  /\ Z.land (unTag p) (Z.shiftl 1 48 - 1) = Z.land p (Z.shiftl 1 48 - 1)
  /\ unTag (unTag p) = unTag p
  /\ 0 <= unTag p < 2 ^ 64.
Proof.
  intros Hp.
  assert (forall q, 0 <= q < 2 ^ 64 -> unTag q = Z.lor q (Z.shiftl 0xffff 48)) as Hor.
  { intros q Hq. unfold unTag. apply Z.bits_inj'. intros i Hi.
    rewrite !Z.lor_spec, Z.land_spec, tagMask_bits by exact Hi.
    change (Z.shiftl 1 48 - 1) with (Z.ones 48).
    destruct (Z.ltb_spec i 48) as [H1 | H1].
    - rewrite Z.ones_spec_low by lia. by rewrite andb_true_r.
    - rewrite Z.ones_spec_high by lia. rewrite andb_false_r. cbn [orb].
      destruct (Z.ltb_spec i 64) as [H2 | H2].
      + destruct (Z.leb_spec 48 i); [| lia]. cbn [andb]. by rewrite orb_true_r.
      + rewrite (testbit_u64_high q i Hq) by lia. by rewrite andb_false_r. }
  assert (forall q, 0 <= q < 2 ^ 64 -> 0 <= unTag q < 2 ^ 64) as Hrange.
  { intros q Hq. rewrite (Hor q Hq). split.
    - apply Z.lor_nonneg. split; [lia | by vm_compute].
    - destruct (Z.eq_dec (Z.lor q (Z.shiftl 0xffff 48)) 0) as [-> | Hnz]; [lia |].
      apply Z.log2_lt_pow2.
      + assert (0 <= Z.lor q (Z.shiftl 0xffff 48))
          by (apply Z.lor_nonneg; split; [lia | by vm_compute]). lia.
      + rewrite Z.log2_lor; [| lia | by vm_compute].
        apply Z.max_lub_lt; [| by vm_compute].
        destruct (Z.eq_dec q 0) as [-> | Hq0]; [by vm_compute |].
        apply Z.log2_lt_pow2; lia. }
  assert (Z.land (unTag p) (Z.ones 48) = Z.land p (Z.ones 48)) as Hlow.
  { rewrite (Hor p Hp). apply Z.bits_inj'. intros i Hi.
    rewrite !Z.land_spec, Z.lor_spec, tagMask_bits by exact Hi.
    destruct (Z.ltb_spec i 48) as [H1 | H1].
    - destruct (Z.leb_spec 48 i); [lia |]. cbn [andb]. by rewrite orb_false_r.
    - rewrite Z.ones_spec_high by lia. by rewrite !andb_false_r. }
  split; [exact (Hor p Hp) |].
  split.
  { unfold getTag. rewrite (Hor p Hp). apply Z.bits_inj'. intros i Hi.
    rewrite Z.shiftr_spec, Z.lor_spec, tagMask_bits by lia.
    change 0xffff with (Z.ones 16).
    destruct (Z.ltb_spec i 16) as [H1 | H1].
    - rewrite Z.ones_spec_low by lia.
      destruct (Z.leb_spec 48 (i + 48)); [| lia].
      destruct (Z.ltb_spec (i + 48) 64); [| lia]. cbn [andb]. by rewrite orb_true_r.
    - rewrite Z.ones_spec_high by lia.
      rewrite (testbit_u64_high p (i + 48) Hp) by lia.
      destruct (Z.ltb_spec (i + 48) 64); [lia |]. by rewrite andb_false_r. }
  split; [exact Hlow |].
  split; [| exact (Hrange p Hp)].
  unfold unTag at 1. change (Z.shiftl 1 48 - 1) with (Z.ones 48).
  rewrite Hlow. reflexivity.
Qed.

Lemma unTag_sets_the_tag_witness :
  unTag 0x0017fffffff00000 = 0xfffffffffff00000
  /\ getTag (unTag 0x0017fffffff00000) = 0xffff.
Proof.
  destruct (unTag_sets_the_tag 0x0017fffffff00000) as (Hor & Htag & _).
  { split; [discriminate | reflexivity]. }
  split; [rewrite Hor; reflexivity | exact Htag].
Defined.

(** * Further properties of the locator *)

Lemma bind_Ok_r {A} (m : result A) : m ≫= Ok = m.
Proof. by destruct m. Qed.

(** The window before the branch: when the branch address is below
    [0x20] the subtraction wraps and no address is in it; otherwise it holds
    the addresses strictly between [failXref - 0x20] and [failXref]. *)
Theorem window_bounds (failXrefVMAddr : Z) (ins : Instruction) :
  0 <= failXrefVMAddr < 2 ^ 64 ->
  (inWindow failXrefVMAddr ins = true
   <-> 0x20 <= failXrefVMAddr
       /\ failXrefVMAddr - 0x20 < Address ins < failXrefVMAddr).
Proof.
  intros Hf. unfold inWindow, U.u64, U.wrap. rewrite andb_true_iff, !Z.ltb_lt.
  destruct (Z.le_gt_cases 0x20 failXrefVMAddr) as [Hge | Hlt].
  - rewrite Z.mod_small by lia. lia.
  - assert ((failXrefVMAddr - 32) mod 2 ^ 64 = failXrefVMAddr - 32 + 2 ^ 64) as ->.
    { symmetry. apply (Z.mod_unique_pos _ _ (-1)); lia. }
    lia.
Qed.

Lemma window_bounds_witness :
  inWindow 0x1008 (Sample.MOV 0x1004 0 0x1234) = true
  /\ inWindow 0x10 (Sample.MOV 0xc 0 0x1234) = false.
Proof.
  split.
  - apply (window_bounds 0x1008 (Sample.MOV 0x1004 0 0x1234)); [lia |].
    cbn [Address Sample.MOV]. lia.
  - apply not_true_is_false. intros H.
    apply (window_bounds 0x10 (Sample.MOV 0xc 0 0x1234)) in H; lia.
Defined.

Lemma operand_at (ins : Instruction) (ops : list Operand) (i : nat) (o : Operand) :
  Operands ins = Some ops -> ops !! i = Some o -> operand ins i = Ok o.
Proof. intros Ho Hi. unfold operand, at_, elems. rewrite Ho. cbn. by rewrite Hi. Qed.

Lemma register0_at (o : Operand) (r : Z) (rs : list Z) :
  Registers o = r :: rs -> register0 o = Ok r.
Proof. intros Hr. unfold register0, at_. by rewrite Hr. Qed.

(** An [ADD] behind an [ADRP] is recorded in every case: with the sum of
    page and offset when it reads the register [ADRP] wrote, with the page
    alone when it reads another one. *)
Theorem adrp_add_recorded (prev ins : Instruction) (refs : gmap Z Z)
    (p0 p1 i0 i1 i2 : Operand) (prest irest : list Operand)
    (ra rn : Z) (pregs iregs : list Z) :
  Encoding ins <> ENC_BL_ONLY_BRANCH_IMM -> Encoding ins <> ENC_B_ONLY_BRANCH_IMM ->
  Encoding ins <> ENC_CBZ_64_COMPBRANCH ->
  Operation prev = ARM64_ADRP -> Operation ins = ARM64_ADD ->
  Operands prev = Some (p0 :: p1 :: prest) -> Registers p0 = ra :: pregs ->
  Operands ins = Some (i0 :: i1 :: i2 :: irest) -> Registers i1 = rn :: iregs ->
  record (Some prev) ins refs
  = Ok (<[Address ins := if ra =? rn then U.u64 (Immediate p1 + Immediate i2)
                         else Immediate p1]> refs).
Proof.
  intros He1 He2 He3 Hp Hi Hpo Hpr Hio Hir.
  unfold record, afterADRP. rewrite Hp, Hi.
  rewrite decide_False by (intros [H | H]; congruence).
  rewrite decide_False by exact He3.
  rewrite decide_False by (intros [H | H]; discriminate).
  rewrite decide_True by reflexivity.
  rewrite decide_True by (left; reflexivity).
  unfold adrpPair. rewrite Hi.
  rewrite (operand_at prev _ 0 p0 Hpo eq_refl), bind_ret.
  rewrite (register0_at p0 ra pregs Hpr), bind_ret.
  rewrite (operand_at prev _ 1 p1 Hpo eq_refl), bind_ret.
  rewrite decide_False by discriminate. rewrite decide_True by reflexivity.
  rewrite (operand_at ins _ 1 i1 Hio eq_refl), bind_ret.
  rewrite (register0_at i1 rn iregs Hir), bind_ret.
  destruct (ra =? rn); [| by rewrite bind_ret].
  rewrite (operand_at ins _ 2 i2 Hio eq_refl), !bind_ret. reflexivity.
Qed.

Lemma adrp_add_recorded_witness :
  record (Some (Sample.ADRP 0x2000 8 0x1000)) (Sample.ADD 0x2004 8 8 0x10) ∅
  = Ok {[0x2004 := 0x1010]}
  /\ record (Some (Sample.ADRP 0x2000 8 0x1000)) (Sample.ADD 0x2004 8 9 0x10) ∅
     = Ok {[0x2004 := 0x1000]}.
Proof.
  split.
  - apply (adrp_add_recorded (Sample.ADRP 0x2000 8 0x1000) (Sample.ADD 0x2004 8 8 0x10) ∅
             (Sample.reg 8) (Sample.imm64 0x1000)
             (Sample.reg 8) (Sample.reg 8) (Sample.imm64 0x10) [] [] 8 8 [] []);
      (discriminate || reflexivity).
  - apply (adrp_add_recorded (Sample.ADRP 0x2000 8 0x1000) (Sample.ADD 0x2004 8 9 0x10) ∅
             (Sample.reg 8) (Sample.imm64 0x1000)
             (Sample.reg 8) (Sample.reg 9) (Sample.imm64 0x10) [] [] 8 9 [] []);
      (discriminate || reflexivity).
Defined.

(** An [LDR] is never fused in the first pass: its own immediate is
    recorded whatever came before, also behind an [ADRP] that wrote the
    register it reads.  In the window of the second pass the same pair is
    fused to page plus offset. *)
Theorem ldr_fused_in_second_pass_only (prev ins : Instruction) (refs : gmap Z Z)
    (p0 p1 i0 i1 : Operand) (prest irest : list Operand)
    (ra : Z) (pregs iregs : list Z) (addr size : Z) :
  Encoding ins <> ENC_BL_ONLY_BRANCH_IMM -> Encoding ins <> ENC_B_ONLY_BRANCH_IMM ->
  Encoding ins <> ENC_CBZ_64_COMPBRANCH ->
  Operation prev = ARM64_ADRP -> Operation ins = ARM64_LDR ->
  Operands prev = Some (p0 :: p1 :: prest) -> Registers p0 = ra :: pregs ->
  Operands ins = Some (i0 :: i1 :: irest) -> Registers i1 = ra :: iregs ->
  (forall prevI, record prevI ins refs = Ok (<[Address ins := Immediate i1]> refs))
  /\ windowBody (Some prev) ins addr size
     = Ok (U.u64 (Immediate p1 + Immediate i1), size).
Proof.
  intros He1 He2 He3 Hp Hi Hpo Hpr Hio Hir. split.
  - intros prevI. unfold record. rewrite Hi.
    rewrite decide_False by (intros [H | H]; congruence).
    rewrite decide_False by exact He3.
    rewrite decide_True by (right; reflexivity).
    rewrite (operand_at ins _ 1 i1 Hio eq_refl), bind_ret. reflexivity.
  - unfold windowBody, afterADRP. rewrite Hp, Hi.
    rewrite decide_True by reflexivity.
    rewrite decide_True by (right; reflexivity).
    unfold adrpPair. rewrite Hi.
    rewrite (operand_at prev _ 0 p0 Hpo eq_refl), bind_ret.
    rewrite (register0_at p0 ra pregs Hpr), bind_ret.
    rewrite (operand_at prev _ 1 p1 Hpo eq_refl), bind_ret.
    rewrite decide_True by reflexivity.
    rewrite (operand_at ins _ 1 i1 Hio eq_refl), bind_ret.
    rewrite (register0_at i1 ra iregs Hir), bind_ret.
    rewrite Z.eqb_refl, bind_ret. reflexivity.
Qed.

Lemma ldr_fused_in_second_pass_only_witness :
  record (Some (Sample.ADRP 0x2000 8 0x1000)) (Sample.LDR 0x2004 0 8 0x18) ∅
  = Ok {[0x2004 := 0x18]}
  /\ windowBody (Some (Sample.ADRP 0x2000 8 0x1000)) (Sample.LDR 0x2004 0 8 0x18) 0 0
     = Ok (0x1018, 0).
Proof.
  destruct (ldr_fused_in_second_pass_only
              (Sample.ADRP 0x2000 8 0x1000) (Sample.LDR 0x2004 0 8 0x18) ∅
              (Sample.reg 8) (Sample.imm64 0x1000) (Sample.reg 0)
              (mkOperand (CLASS_OTHER 1) [8] 0x18 (SHIFT_TYPE_OTHER 0) 0)
              [] [] 8 [] [] 0 0) as [H1 H2];
    try (discriminate || reflexivity).
  split; [apply H1 | exact H2].
Defined.

(** ** The reads of the code buffer *)

Lemma wordReads_words (k fuel : nat) (ws tail : list byte) :
  length ws = (4 * k)%nat -> (length tail < 4)%nat -> (k < fuel)%nat ->
  wordReads fuel (ws ++ tail)
  = ((fun w => Some (le w)) <$> chunks 4 k ws)
    ++ (if decide (tail = []) then [] else [None]).
Proof.
  revert fuel ws. induction k as [|k IH]; intros fuel ws Hws Ht Hf.
  - destruct ws; [| discriminate Hws]. destruct fuel as [|fuel]; [lia |].
    cbn [app chunks fmap list_fmap wordReads].
    destruct tail as [|b tail]; [reflexivity |].
    rewrite decide_False by discriminate.
    destruct (Nat.ltb_spec (length (b :: tail)) 4); [reflexivity | lia].
  - destruct fuel as [|fuel]; [lia |]. cbn [wordReads chunks fmap list_fmap app].
    destruct (ws ++ tail) as [|b rest] eqn:Hd.
    { apply (f_equal length) in Hd. rewrite length_app in Hd. cbn [length] in Hd. lia. }
    rewrite <- Hd.
    destruct (Nat.ltb_spec (length (ws ++ tail)) 4) as [Hl | Hl];
      [rewrite length_app in Hl; lia |].
    rewrite take_app_le, drop_app_le by lia. f_equal.
    apply IH; [rewrite length_drop; lia | exact Ht | lia].
Qed.

Section LocatorMore.

Variable tagPtrMask : Z.
Variable maxAlloc : N.
Variable Decompose : Z -> Z -> option Instruction.
Variable rangeOrder : nat -> gmap Z Z -> list (Z * Z).

Lemma scanLoop_app (st : scanState) (a b : list (option Z)) :
  scanLoop Decompose st (a ++ b)
  = (st1 ← scanLoop Decompose st a; scanLoop Decompose st1 b).
Proof.
  revert st. induction a as [|rd a IH]; intros st; cbn [app scanLoop];
    [by rewrite bind_ret |].
  destruct (scanBody Decompose st rd) as [st1| |]; [| reflexivity ..].
  rewrite !bind_ret. apply IH.
Qed.

(** A code buffer that ends in 1 to 3 extra bytes: the words are scanned,
    then the failed read leaves the last word in place and the body runs
    once more on it, at the address that follows. *)
Theorem trailing_bytes_rescan (st : scanState) (ws tail : list byte) (k : nat) :
  length ws = (4 * k)%nat -> (0 < length tail < 4)%nat ->
  instrReads ws = (fun w => Some (le w)) <$> chunks 4 k ws
  /\ scanLoop Decompose st (instrReads (ws ++ tail))
     = (st1 ← scanLoop Decompose st (instrReads ws);
        scanBody Decompose st1 (Some (instrValue st1))).
Proof.
  intros Hws Ht.
  assert (instrReads ws = (fun w => Some (le w)) <$> chunks 4 k ws) as Hfull.
  { destruct (decide (k = 0%nat)) as [-> | Hk].
    - destruct ws; [reflexivity | discriminate Hws].
    - unfold instrReads. rewrite <- (app_nil_r ws) at 2.
      rewrite (wordReads_words k) by (cbn [length]; lia).
      rewrite decide_True by reflexivity. by rewrite app_nil_r. }
  split; [exact Hfull |].
  unfold instrReads at 1.
  rewrite (wordReads_words k) by (rewrite ?length_app; lia).
  rewrite decide_False by (intros ->; cbn [length] in Ht; lia).
  rewrite scanLoop_app, Hfull.
  destruct (scanLoop Decompose st _) as [st1| |]; [| reflexivity ..].
  rewrite !bind_ret. cbn [scanLoop]. apply bind_Ok_r.
Qed.

(** *** The kext list *)

Lemma sandboxKext_skip (m : MachoFile) (startAdders : list Z) (idx : nat)
    (pre rest : list string) :
  Forall (fun info => Contains info "sandbox" = false) pre ->
  sandboxKext tagPtrMask m startAdders idx (pre ++ rest)
  = sandboxKext tagPtrMask m startAdders (idx + length pre) rest.
Proof.
  intros Hpre. revert idx. induction Hpre as [|info pre Hinfo _ IH]; intros idx.
  - cbn [app length]. by rewrite Nat.add_0_r.
  - cbn [app sandboxKext length]. rewrite Hinfo, IH. f_equal. lia.
Qed.

(** When the sandbox kext is the last entry of the start-address table,
    [startAdders[idx+1]] is out of range and the locator panics. *)
Theorem last_kext_panics (m : MachoFile) (panic : string)
    (panicStrVMAddr panicStrOffset : Z) (startAdders : list Z)
    (pre rest : list string) (info : string) :
  findCStringVMaddr m panic = Some panicStrVMAddr ->
  GetOffset m panicStrVMAddr = Some panicStrOffset ->
  getKextStartVMAddrs m = Some startAdders ->
  getKextInfos m = Some (pre ++ info :: rest) ->
  Forall (fun i => Contains i "sandbox" = false) pre ->
  Contains info "sandbox" = true ->
  (length startAdders <= length pre + 1)%nat ->
  getSandboxData tagPtrMask maxAlloc Decompose rangeOrder m panic = Panic.
Proof.
  intros Hpa Hpo Hst Hin Hpre Hinfo Hlen. unfold getSandboxData.
  rewrite Hpa. cbn [service]. rewrite bind_ret, Hpo. cbn [service].
  rewrite bind_ret, Hst. cbn [service]. rewrite bind_ret, Hin. cbn [service].
  rewrite bind_ret, (sandboxKext_skip m startAdders 0 pre (info :: rest) Hpre).
  cbn [sandboxKext]. rewrite Hinfo. unfold at_.
  rewrite (lookup_ge_None_2 startAdders (0 + length pre + 1)) by lia.
  destruct (startAdders !! (0 + length pre)%nat); reflexivity.
Qed.

(** Without a kext whose name contains ["sandbox"] the locator does not
    fail: it reads 0 bytes of code at offset 0, finds nothing, and ends by
    translating address 0 and reading 0 bytes there. *)
Theorem no_sandbox_kext (m : MachoFile) (panic : string)
    (panicStrVMAddr panicStrOffset : Z) (startAdders : list Z) (infos : list string) :
  findCStringVMaddr m panic = Some panicStrVMAddr ->
  GetOffset m panicStrVMAddr = Some panicStrOffset ->
  getKextStartVMAddrs m = Some startAdders ->
  getKextInfos m = Some infos ->
  Forall (fun i => Contains i "sandbox" = false) infos ->
  ReadAt m 0 0 = Some [] ->
  rangeOrder 1 ∅ = [] -> rangeOrder 2 ∅ = [] ->
  getSandboxData tagPtrMask maxAlloc Decompose rangeOrder m panic
  = (profileOffset ← service "GetOffset" (GetOffset m 0);
     service "ReadAt" (ReadAt m 0 (toInt64 profileOffset))).
Proof.
  intros Hpa Hpo Hst Hin Hno Hrd Ho1 Ho2. unfold getSandboxData.
  rewrite Hpa. cbn [service]. rewrite bind_ret, Hpo. cbn [service].
  rewrite bind_ret, Hst. cbn [service]. rewrite bind_ret, Hin. cbn [service].
  rewrite bind_ret.
  rewrite <- (app_nil_r infos), (sandboxKext_skip m startAdders 0 infos [] Hno).
  cbn [sandboxKext]. rewrite bind_ret.
  change (U.u64 (0 - 0)) with 0. change (toInt64 0) with 0.
  rewrite readBytes_zero, Hrd. cbn [service]. rewrite bind_ret.
  change (instrReads []) with (@nil (option Z)). cbn [scanLoop].
  rewrite bind_ret. cbn [references instrValue prevInstr].
  unfold panicXref, failXref, rangeFind. rewrite Ho1. cbn [List.find fmap option_fmap option_map].
  rewrite Ho2. cbn [List.find fmap option_fmap option_map default findLoop].
  rewrite bind_ret. cbn [profileVMAddr profileSize].
  destruct (GetOffset m 0) as [profileOffset|]; [| reflexivity].
  cbn [service]. rewrite !bind_ret. apply readBytes_zero.
Qed.

(** *** The searches of the map *)

(** If the visiting order lists the entries of the map, a search finds a
    key of the value it looks for; it finds none exactly when no key has
    that value; and a key that alone has the value is found whatever the
    order. *)
Theorem rangeFind_sound (loop : nat) (refs : gmap Z Z) (target : Z) :
  (forall k v, (k, v) ∈ rangeOrder loop refs <-> refs !! k = Some v) ->
  (forall k, rangeFind rangeOrder loop refs target = Some k -> refs !! k = Some target)
  /\ (rangeFind rangeOrder loop refs target = None
      <-> forall k, refs !! k <> Some target)
  /\ (forall k, refs !! k = Some target ->
        (forall k', refs !! k' = Some target -> k' = k) ->
        rangeFind rangeOrder loop refs target = Some k).
Proof.
  intros Hord. unfold rangeFind.
  assert (forall k, List.find (fun kv => snd kv =? target) (rangeOrder loop refs) = Some k ->
            refs !! k.1 = Some target) as Hsome.
  { intros [k v] Hf. apply find_some in Hf as [Hin Hv].
    apply list_elem_of_In, Hord in Hin. cbn [fst snd] in *.
    apply Z.eqb_eq in Hv. by subst v. }
  assert (List.find (fun kv => snd kv =? target) (rangeOrder loop refs) = None ->
            forall k, refs !! k <> Some target) as Hnone.
  { intros Hf k Hk. apply Hord, list_elem_of_In in Hk.
    pose proof (find_none _ _ Hf _ Hk) as Hv. cbn [snd] in Hv.
    apply Z.eqb_neq in Hv. done. }
  destruct (List.find _ _) as [kv|]; cbn [fmap option_fmap option_map].
  - pose proof (Hsome kv eq_refl) as Hkv. split_and!.
    + intros k [= <-]. exact Hkv.
    + split; [discriminate | intros Hall; by apply Hall in Hkv].
    + intros k Hk Huniq. f_equal. by apply Huniq.
  - pose proof (Hnone eq_refl) as Hall. split_and!.
    + discriminate.
    + split; [intros _; exact Hall | reflexivity].
    + intros k Hk _. by apply Hall in Hk.
Qed.

End LocatorMore.

Lemma trailing_bytes_rescan_witness :
  let st := mkScan 0 None Sample.kextStart ∅ in
  scanLoop Sample.stubDecompose st (instrReads (bytes [1; 0; 0; 0; 9]))
  = (st1 ← scanLoop Sample.stubDecompose st (instrReads (bytes [1; 0; 0; 0]));
     scanBody Sample.stubDecompose st1 (Some (instrValue st1))).
Proof.
  intros st.
  destruct (trailing_bytes_rescan Sample.stubDecompose st
              (bytes [1; 0; 0; 0]) (bytes [9]) 1) as [_ H];
    [reflexivity | cbn [length bytes fmap list_fmap]; lia | exact H].
Defined.

Lemma last_kext_panics_witness :
  getSandboxData Sample.tagPtrMask Sample.maxAlloc Sample.stubDecompose Sample.mapOrder
    Sample.lastKextFile (quoted "failed to initialize collection") = Panic.
Proof.
  apply (last_kext_panics Sample.tagPtrMask Sample.maxAlloc Sample.stubDecompose
           Sample.mapOrder Sample.lastKextFile (quoted "failed to initialize collection")
           Sample.panicStrAddr (Sample.panicStrAddr - 0xfffffff007000000)
           [0xfffffff007000000; Sample.kextStart]
           ["com.apple.kec.corecrypto"%string] []
           "com.apple.security.sandbox"%string);
    [reflexivity | reflexivity | reflexivity | reflexivity
     | repeat constructor | reflexivity | cbn [length]; lia].
Defined.

Lemma no_sandbox_kext_witness :
  getSandboxData Sample.tagPtrMask Sample.maxAlloc Sample.stubDecompose Sample.mapOrder
    Sample.noSandboxFile (quoted "failed to initialize collection") = Ok [].
Proof.
  rewrite (no_sandbox_kext Sample.tagPtrMask Sample.maxAlloc Sample.stubDecompose
             Sample.mapOrder Sample.noSandboxFile (quoted "failed to initialize collection")
             Sample.panicStrAddr Sample.panicStrAddr
             [0xfffffff007000000; Sample.kextStart]
             ["com.apple.kec.corecrypto"; "com.apple.iokit.IOSurface"]%string);
    [reflexivity | reflexivity | reflexivity | reflexivity | reflexivity
     | repeat constructor | reflexivity | reflexivity | reflexivity].
Defined.

Lemma rangeFind_sound_witness :
  rangeFind Sample.mapOrder 1 {[1 := 5; 2 := 7]} 7 = Some 2.
Proof.
  destruct (rangeFind_sound Sample.mapOrder 1 {[1 := 5; 2 := 7]} 7) as (_ & _ & Huniq).
  { intros k v. unfold Sample.mapOrder. apply elem_of_map_to_list. }
  apply Huniq.
  - reflexivity.
  - intros k' H. apply lookup_insert_Some in H as [[_ [=]] | [_ H]].
    apply lookup_singleton_Some in H as [<- _]. reflexivity.
Defined.

(** ** The value of an operation, in general *)

(** For every accepted blob with [n = opNodeCount] op nodes, an operation
    index is below [2 * n]; an index below [n] yields the value 0, and an
    index [n + j] yields the [uint64] read through entry [j] of the op-node
    offset table. *)
Theorem values_from_padded_array (data : list byte) (opsList : list string) (sb : Sandbox) :
  ParseSandboxCollection data opsList = Ok sb ->
  let n := Z.to_nat (Parse.opNodeCount (Parse.decodeCollection (take 12 data))) in
  exists vals,
    opNodesPositional data = Ok vals /\ length vals = n
    /\ Forall (fun p => Forall (fun o =>
         (Z.to_nat (Index o) < 2 * n)%nat
         /\ ((Z.to_nat (Index o) < n)%nat -> Value o = 0)
         /\ ((n <= Z.to_nat (Index o))%nat ->
             vals !! (Z.to_nat (Index o) - n)%nat = Some (Value o)))
         (Operations p)) (Profiles sb).
Proof.
  intros H. destruct (value_lookup _ _ _ H) as (vals & Hpos & Hlen & Hall).
  cbv zeta in *. exists vals. split; [exact Hpos |]. split; [exact Hlen |].
  eapply Forall_impl; [exact Hall |]. intros p Hp. cbv beta in Hp.
  eapply Forall_impl; [exact Hp |]. intros o Ho. cbv beta in Ho.
  pose proof (lookup_lt_Some _ _ _ Ho) as Hlt.
  rewrite length_app, length_replicate, Hlen in Hlt.
  split; [lia |]. split.
  - intros Hi. rewrite lookup_app_l in Ho by (rewrite length_replicate; exact Hi).
    apply lookup_replicate in Ho as [<- _]. reflexivity.
  - intros Hi. rewrite lookup_app_r in Ho by (rewrite length_replicate; exact Hi).
    rewrite length_replicate in Ho. exact Ho.
Qed.

Lemma values_from_padded_array_witness :
  let sb := mkSandbox ∅ ∅ {[24 := 24]}
              [mkProfile ["A"%byte] 1 [mkOperation "default" 0 0]] in
  exists vals,
    opNodesPositional Sample.blobOneNode = Ok vals /\ length vals = 1%nat
    /\ Forall (fun p => Forall (fun o =>
         (Z.to_nat (Index o) < 2 * 1)%nat
         /\ ((Z.to_nat (Index o) < 1)%nat -> Value o = 0)
         /\ ((1 <= Z.to_nat (Index o))%nat ->
             vals !! (Z.to_nat (Index o) - 1)%nat = Some (Value o)))
         (Operations p)) (Profiles sb).
Proof.
  intros sb.
  assert (ParseSandboxCollection Sample.blobOneNode ["default"%string] = Ok sb) as H
    by (vm_compute; reflexivity).
  exact (values_from_padded_array _ _ _ H).
Defined.
